(** * FaceAuth Security Service: a shallow embedding and its properties

    The development follows the layout of the repository:
    - [Db]          db.py          the SQLite tables and their accessors
    - [Security]    security.py    the lockout counter
    - [Recognition] recognition.py extraction, cosine distance, motion score
    - [Auth]        auth.py        bearer tokens
    - [App]         app.py         the HTTP handlers
    - [Interleave]  register_fail cut at its two database transactions

    Python [int] is [Z], Python [float] and numpy's [float64] are binary64
    primitive floats, [str] is [string], [Optional] is [option].  What numpy
    hands to BLAS, OpenCV and dlib is taken from the environment, which
    fixes no more of it than the libraries promise.  Every database accessor of
    db.py opens a connection, runs one statement, commits and closes, so each
    accessor is one atomic step on the tables. *)

From Stdlib Require Import ZArith Floats Lia List Sorted Permutation.
From stdpp Require Import gmap strings list pretty.
Set Warnings "-inexact-float,-register-all".

Local Open Scope string_scope.
Local Open Scope Z_scope.

(** ** JSON values, as stored in [meta_json] and sent in response bodies *)

Inductive json :=
| JNull
| JBool (b : bool)
| JInt (z : Z)
| JFloat (f : float)
| JStr (s : string)
| JList (l : list json)
| JDict (d : list (string * json)).

Definition JOpt {A} (f : A → json) (o : option A) : json :=
  match o with Some a => f a | None => JNull end.

(** ** The outside world *)

Definition bytes := list Byte.byte.

(** A decoded image; its pixels are only ever handed to OpenCV and dlib. *)
Record Image := { pixels : list (list Z) }.

(** What the process takes from its surroundings: the wall clock, the two
    environment variables read by auth.py, and the library calls of OpenCV,
    face_recognition and python-jose's HMAC that the repository does not
    implement itself. *)
Class Env := {
  (** [int(time.time())] at the n-th reading of the wall clock *)
  clock : nat → Z;
  (** [os.getenv("FACEAUTH_SECRET_KEY", "dev-insecure-secret-change-me")] *)
  SECRET_KEY : string;
  (** [int(os.getenv("ACCESS_TOKEN_TTL_SECONDS", "3600"))] *)
  ACCESS_TOKEN_TTL_SECONDS : Z;
  (** HS256 over the signing input made of the header's algorithm and the
      claims: key first *)
  hmac_sha256 : string → string * list (string * json) → string;
  (** [cv2.imdecode(data, cv2.IMREAD_COLOR)] on a buffer that is not empty,
      [None] on failure *)
  imdecode_color : bytes → option Image;
  (** [cv2.imdecode(data, cv2.IMREAD_GRAYSCALE)] on a buffer that is not
      empty, [None] on failure *)
  imdecode_gray : bytes → option Image;
  (** [cv2.cvtColor(bgr, cv2.COLOR_BGR2RGB)] and
      [cv2.cvtColor(bgr, cv2.COLOR_BGR2GRAY)] *)
  cvtColor_BGR2RGB : Image → Image;
  cvtColor_BGR2GRAY : Image → Image;
  (** [cv2.Laplacian(gray, cv2.CV_64F).var()] *)
  laplacian_var : Image → float;
  (** [float(np.mean(gray))] *)
  mean_gray : Image → float;
  (** [face_recognition.face_encodings(rgb, known_face_locations=locations)]
      at [locations = face_recognition.face_locations(rgb, model="hog")] *)
  face_encodings : Image → list (list float);
  (** [np.mean(cv2.absdiff(a, b))] after both are resized to 256x256 *)
  mean_absdiff_256 : Image → Image → float;
  (** the BLAS routine behind [np.dot] and [ndarray.dot] on two float64
      arrays of one length; the order in which it adds the products up, and
      whether it rounds a product before adding it, is the library's own *)
  cblas_ddot : list float → list float → float;
  (** the format specification [:.1f] *)
  format_1f : float → string;
  (** [str.strip] and [str.lower] *)
  str_strip : string → string;
  str_lower : string → string;
}.

(** Exceptions that leave a function. The message of a [cv2.error] names
    the OpenCV build and source line; nothing in the repository reads it. *)
Inductive Exc :=
| HTTPException (status_code : Z) (detail : json)
| ValueError (msg : string)
| JWTError (msg : string)
| Cv2Error
| OverflowError (msg : string).

Inductive Result (A : Type) :=
| Return (a : A)
| Raise (e : Exc).
Arguments Return {A} a.
Arguments Raise {A} e.

(** ** db.py *)

Module Db.

(** A row of [auth_state]: the JSON object [{"fails": _, "locked_until": _}]
    that security.py stores under a key. *)
Record LockoutState := { fails : Z; locked_until : Z }.

(** A row of [users]. Rows are kept in rowid order. *)
Record UserRow := {
  username : string;
  embedding : list float;
  role : string;
  created_at : Z;
}.

(** A row of [events]. *)
Record EventRow := {
  ts : Z;
  event_type : string;
  ev_username : option string;
  ev_ip : option string;
  meta : list (string * json);
}.

(** The database file and the number of clock readings so far. *)
Record World := {
  auth_state : gmap string LockoutState;
  users : list UserRow;
  events : list EventRow;
  ticks : nat;
}.

Definition with_auth_state (m : gmap string LockoutState) (w : World) : World :=
  {| auth_state := m; users := users w; events := events w; ticks := ticks w |}.
Definition with_users (u : list UserRow) (w : World) : World :=
  {| auth_state := auth_state w; users := u; events := events w; ticks := ticks w |}.
Definition with_events (e : list EventRow) (w : World) : World :=
  {| auth_state := auth_state w; users := users w; events := e; ticks := ticks w |}.
Definition with_ticks (n : nat) (w : World) : World :=
  {| auth_state := auth_state w; users := users w; events := events w; ticks := n |}.

(** After [init_db] on a new file. *)
Definition init_db : World :=
  {| auth_state := ∅; users := []; events := []; ticks := 0 |}.

(** A computation reads and writes the world and returns or raises. What
    was committed before an exception stays committed. *)
Definition M (A : Type) : Type := World → Result A * World.

Definition raise {A} (e : Exc) : M A := λ w, (Raise e, w).

#[global] Instance M_ret : MRet M := λ A a w, (Return a, w).
#[global] Instance M_bind : MBind M := λ A B k m w,
  match m w with
  | (Return a, w') => k a w'
  | (Raise e, w') => (Raise e, w')
  end.

(** [int(time.time())] *)
Definition time_time `{Env} : M Z :=
  λ w, (Return (clock (ticks w)), with_ticks (S (ticks w)) w).

Fixpoint upsert_rows (u : string) (emb : list float) (r : string) (now : Z)
    (rows : list UserRow) : list UserRow :=
  match rows with
  | [] => [ {| username := u; embedding := emb; role := r; created_at := now |} ]
  | row :: rest =>
      if String.eqb (username row) u
      then {| username := username row;
              embedding := emb;
              (* COALESCE(users.role, excluded.role); the column is NOT NULL *)
              role := default r (Some (role row));
              created_at := created_at row |} :: rest
      else row :: upsert_rows u emb r now rest
  end.

Definition upsert_user `{Env} (username : string) (embedding : list float)
    (role : string) : M unit :=
  now ← time_time;
  ((λ w, (Return (), with_users (upsert_rows username embedding role now (users w)) w))
     : M unit).

Definition get_user (u : string) : M (option UserRow) :=
  λ w, (Return (find (λ row, String.eqb (username row) u) (users w)), w).

Definition set_role_row (u r : string) (row : UserRow) : UserRow :=
  if String.eqb (username row) u
  then {| username := username row; embedding := embedding row;
          role := r; created_at := created_at row |}
  else row.

Definition set_user_role (u r : string) : M bool :=
  λ w, let rowcount := length (filter (λ row, String.eqb (username row) u = true) (users w)) in
       (Return (bool_decide (0 < rowcount)%nat),
        with_users (map (set_role_row u r) (users w)) w).

Definition list_users : M (list UserRow) :=
  λ w, (Return (users w), w).

Definition log_event `{Env} (event_type : string) (username ip : option string)
    (meta : list (string * json)) : M unit :=
  now ← time_time;
  ((λ w, (Return (),
          with_events (events w ++ [ {| ts := now; event_type := event_type;
                                       ev_username := username; ev_ip := ip;
                                       meta := meta |} ]) w))
     : M unit).

(** [ORDER BY ts DESC]: rows of equal [ts] are taken in rowid order. *)
Fixpoint insert_desc (e : EventRow) (l : list EventRow) : list EventRow :=
  match l with
  | [] => [e]
  | x :: l' => if ts x <? ts e then e :: l else x :: insert_desc e l'
  end.

Definition order_by_ts_desc (l : list EventRow) : list EventRow :=
  fold_left (λ acc e, insert_desc e acc) l [].

(** [LIMIT ?]: sqlite3 binds a Python [int] as a signed 64-bit integer and
    raises [OverflowError] for one that does not fit; a negative limit
    means no limit in SQLite. *)
Definition list_events (limit : Z) : M (list EventRow) :=
  if (limit <? - 2 ^ 63) || (2 ^ 63 - 1 <? limit)
  then raise (OverflowError "Python int too large to convert to SQLite INTEGER")
  else
    λ w, let rows := order_by_ts_desc (events w) in
         (Return (if limit <? 0 then rows else take (Z.to_nat limit) rows), w).

Definition get_state (key : string) (default_ : LockoutState) : M LockoutState :=
  λ w, (Return (match auth_state w !! key with
                | None => default_
                | Some v => v
                end), w).

Definition set_state (key : string) (value : LockoutState) : M unit :=
  λ w, (Return (), with_auth_state (<[key := value]> (auth_state w)) w).

End Db.

(** ** security.py *)

Module Security.
Import Db.

Definition LOCKOUT_SECONDS : Z := 60.
Definition MAX_FAILS : Z := 5.

(** [username or 'unknown']: [None] and the empty string both give
    ['unknown']. *)
Definition or_unknown (username : option string) : string :=
  match username with
  | None => "unknown"
  | Some "" => "unknown"
  | Some u => u
  end.

Definition _key (username : option string) (ip : string) : string :=
  "auth:" +:+ or_unknown username +:+ ":" +:+ ip.

Definition check_lockout `{Env} (username : option string) (ip : string)
    : M (bool * Z * Z) :=
  state ← get_state (_key username ip) {| fails := 0; locked_until := 0 |};
  now ← time_time;
  let locked_until_ := locked_until state in
  let fails_ := fails state in
  if now <? locked_until_
  then mret (true, fails_, locked_until_ - now)
  else mret (false, fails_, 0).

Definition register_fail `{Env} (username : option string) (ip : string)
    : M (Z * bool * Z) :=
  state ← get_state (_key username ip) {| fails := 0; locked_until := 0 |};
  now ← time_time;
  let fails_ := fails state + 1 in
  let locked_until_ := locked_until state in
  let '(locked, locked_until_) :=
    if MAX_FAILS <=? fails_
    then (true, now + LOCKOUT_SECONDS)
    else (false, locked_until_) in
  set_state (_key username ip) {| fails := fails_; locked_until := locked_until_ |};;
  mret (fails_, locked, locked_until_).

Definition register_success (username : option string) (ip : string) : M unit :=
  set_state (_key username ip) {| fails := 0; locked_until := 0 |}.

End Security.

(** ** recognition.py *)

Module Recognition.

Record FaceResult := {
  embedding : list float;
  face_count : Z;
  quality_ok : bool;
  quality_reason : option string;
}.

(** [cv2.imdecode(np.frombuffer(buf, dtype=np.uint8), flags)]: OpenCV
    refuses an empty buffer with [cv2.error]; of any other buffer it makes
    an image or [None]. *)
Definition cv2_imdecode (decoder : bytes → option Image) (buf : bytes)
    : Result (option Image) :=
  match buf with
  | [] => Raise Cv2Error
  | _ => Return (decoder buf)
  end.

Definition _decode_image_bytes `{Env} (image_bytes : bytes) : Result (Image * Image) :=
  match cv2_imdecode imdecode_color image_bytes with
  | Raise e => Raise e
  | Return None => Raise (ValueError "Invalid image bytes (decode failed).")
  | Return (Some bgr) =>
      let rgb := cvtColor_BGR2RGB bgr in
      Return (bgr, rgb)
  end.

Definition _quality_gate `{Env} (bgr : Image) : bool * option string :=
  let gray := cvtColor_BGR2GRAY bgr in
  (* Blur: variance of Laplacian (lower = blurrier) *)
  let blur_score := laplacian_var gray in
  if (blur_score <? 45)%float
  then (false, Some ("image_too_blurry(blur=" +:+ format_1f blur_score +:+ ")"))
  else
    (* Brightness: mean pixel value *)
    let brightness := mean_gray gray in
    if (brightness <? 40)%float
    then (false, Some ("image_too_dark(brightness=" +:+ format_1f brightness +:+ ")"))
    else if (220 <? brightness)%float
    then (false, Some ("image_too_bright(brightness=" +:+ format_1f brightness +:+ ")"))
    else (true, None).

Definition extract_embedding `{Env} (image_bytes : bytes) : Result FaceResult :=
  match _decode_image_bytes image_bytes with
  | Raise e => Raise e
  | Return (bgr, rgb) =>
      let '(quality_ok, quality_reason) := _quality_gate bgr in
      if negb quality_ok
      then Return {| embedding := []; face_count := 0; quality_ok := false;
                     quality_reason := quality_reason |}
      else
        let encodings := face_encodings rgb in
        match encodings with
        | [] => Return {| embedding := []; face_count := 0; quality_ok := true;
                          quality_reason := None |}
        | [e] => Return {| embedding := e; face_count := 1; quality_ok := true;
                           quality_reason := None |}
        | _ => Return {| embedding := []; face_count := Z.of_nat (length encodings);
                         quality_ok := true; quality_reason := None |}
        end
  end.

(** The message of the [ValueError] that [np.dot] raises for two
    one-dimensional arrays of different lengths. *)
Definition shapes_not_aligned (n m : nat) : string :=
  "shapes (" +:+ pretty n +:+ ",) and (" +:+ pretty m +:+ ",) not aligned: "
  +:+ pretty n +:+ " (dim 0) != " +:+ pretty m +:+ " (dim 0)".

(** [np.dot] on two one-dimensional float64 arrays. *)
Definition np_dot `{Env} (a b : list float) : Result float :=
  if (length a =? length b)%nat
  then Return (cblas_ddot a b)
  else Raise (ValueError (shapes_not_aligned (length a) (length b))).

(** [np.linalg.norm] of a one-dimensional real array is [sqrt(x.dot(x))]. *)
Definition np_linalg_norm `{Env} (a : list float) : float :=
  PrimFloat.sqrt (cblas_ddot a a).

Definition cosine_distance `{Env} (a b : list float) : Result float :=
  let denom := (np_linalg_norm a * np_linalg_norm b)%float in
  if (denom =? 0)%float
  then Return 1%float
  else
    match np_dot a b with
    | Raise e => Raise e
    | Return dot => Return (1 - dot / denom)%float
    end.

Definition motion_heuristic `{Env} (img1_bytes img2_bytes : bytes) : Result float :=
  match cv2_imdecode imdecode_gray img1_bytes with
  | Raise e => Raise e
  | Return a =>
      match cv2_imdecode imdecode_gray img2_bytes with
      | Raise e => Raise e
      | Return b =>
          match a, b with
          | Some a, Some b => Return (mean_absdiff_256 a b / 255)%float
          | _, _ => Return 0%float
          end
      end
  end.

End Recognition.

(** ** auth.py *)

Module Auth.
Import Db.

(** A bearer string either splits into the three segments of a compact JWS
    whose header and claims decode, or it does not. *)
Record JWS := {
  alg : string;
  claims : list (string * json);
  signature : string;
}.

Inductive Token :=
| Malformed (s : string)
| Compact (jws : JWS).

Fixpoint dict_get (k : string) (d : list (string * json)) : option json :=
  match d with
  | [] => None
  | (k', v) :: d' => if String.eqb k' k then Some v else dict_get k d'
  end.

(** python-jose, [jwt.encode(claims, key, algorithm)]. *)
Definition jwt_encode `{Env} (payload : list (string * json)) (key algorithm : string)
    : Token :=
  Compact {| alg := algorithm; claims := payload;
             signature := hmac_sha256 key (algorithm, payload) |}.

(** python-jose validates the registered claims one after the other. Those
    that [create_access_token] sets are [iat], [exp] and [sub]:
    [_validate_iat] wants an integer, [_validate_exp] wants an integer and
    raises [ExpiredSignatureError] when [exp < now], [_validate_sub] wants a
    string. The clock is read only when there is an [exp]. python-jose
    converts [iat] and [exp] with [int()] and also looks at [nbf], [aud],
    [iss], [jti] and [at_hash]; a token that [create_access_token] has
    issued holds integers there and none of these other claims, and it is
    for such claims that the three validators below are what python-jose
    does. *)
Definition _validate_iat (claims : list (string * json)) : M unit :=
  match dict_get "iat" claims with
  | None | Some (JInt _) => mret ()
  | Some _ => raise (JWTError "Issued At claim (iat) must be an integer.")
  end.

Definition _validate_exp `{Env} (claims : list (string * json)) : M unit :=
  match dict_get "exp" claims with
  | None => mret ()
  | Some (JInt exp) =>
      now ← time_time;
      if exp <? now
      then raise (JWTError "Signature has expired.")
      else mret ()
  | Some _ => raise (JWTError "Expiration Time claim (exp) must be an integer.")
  end.

Definition _validate_sub (claims : list (string * json)) : M unit :=
  match dict_get "sub" claims with
  | None | Some (JStr _) => mret ()
  | Some _ => raise (JWTError "Subject must be a string.")
  end.

(** python-jose, [jwt.decode(token, key, algorithms)] with its default
    options: the header's algorithm must be one of [algorithms], the
    signature must verify, and the claims must be valid. Every failure is
    a [JWTError]. *)
Definition jwt_decode `{Env} (token : Token) (key : string) (algorithms : list string)
    : M (list (string * json)) :=
  match token with
  | Malformed _ => raise (JWTError "Not enough segments")
  | Compact jws =>
      if negb (bool_decide (alg jws ∈ algorithms))
      then raise (JWTError "The specified alg value is not allowed")
      else if negb (String.eqb (signature jws) (hmac_sha256 key (alg jws, claims jws)))
      then raise (JWTError "Signature verification failed.")
      else
        _validate_iat (claims jws);;
        _validate_exp (claims jws);;
        _validate_sub (claims jws);;
        mret (claims jws)
  end.

Definition ALGORITHM : string := "HS256".

Definition create_access_token `{Env} (username role : string) : M Token :=
  now ← time_time;
  let payload := [ ("sub", JStr username);
                   ("role", JStr role);
                   ("iat", JInt now);
                   ("exp", JInt (now + ACCESS_TOKEN_TTL_SECONDS)) ] in
  mret (jwt_encode payload SECRET_KEY ALGORITHM).

Definition decode_token `{Env} (token : Token) : M (list (string * json)) :=
  λ w, match jwt_decode token SECRET_KEY [ALGORITHM] w with
       | (Raise (JWTError _), w') =>
           (Raise (HTTPException 401 (JStr "Invalid or expired token")), w')
       | r => r
       end.

Record HTTPAuthorizationCredentials := {
  scheme : string;
  credentials : Token;
}.

(** A claim value is falsy when it is absent, [None], empty, zero or
    [False]. *)
Definition falsy (v : option json) : bool :=
  match v with
  | None | Some JNull | Some (JStr "") | Some (JInt 0) | Some (JBool false)
  | Some (JList []) | Some (JDict []) => true
  | Some (JFloat f) => PrimFloat.eqb f 0%float
  | _ => false
  end.

(** The user a request acts as: the claims [sub] and [role] as they are. *)
Record CurrentUser := {
  cu_username : json;
  cu_role : json;
}.

Definition get_current_user `{Env} (creds : option HTTPAuthorizationCredentials)
    : M CurrentUser :=
  match creds with
  | None => raise (HTTPException 401 (JStr "Missing Bearer token"))
  | Some c =>
      if negb (String.eqb (str_lower (scheme c)) "bearer")
      then raise (HTTPException 401 (JStr "Missing Bearer token"))
      else
        payload ← decode_token (credentials c);
        let username := dict_get "sub" payload in
        let role := default (JStr "user") (dict_get "role" payload) in
        if falsy username
        then raise (HTTPException 401 (JStr "Invalid token payload"))
        else mret {| cu_username := default JNull username; cu_role := role |}
  end.

(** The [str] that a claim value is. [jwt.decode] has seen to it that [sub]
    is one. *)
Definition str_of (v : json) : string :=
  match v with
  | JStr s => s
  | _ => ""
  end.

(** [v == s] for a claim value and a [str]. *)
Definition json_eq_str (v : json) (s : string) : bool :=
  match v with
  | JStr s' => String.eqb s' s
  | _ => false
  end.

Definition require_role `{Env} (allowed_roles : list string)
    (creds : option HTTPAuthorizationCredentials) : M CurrentUser :=
  user ← get_current_user creds;
  if negb (existsb (json_eq_str (cu_role user)) allowed_roles)
  then raise (HTTPException 403 (JStr "Insufficient privileges"))
  else mret user.

End Auth.

(** ** app.py *)

Module App.
Import Db Security Auth.
Import Recognition.

Definition MATCH_THRESHOLD : float := 0.35%float.
Definition MOTION_THRESHOLD : float := 0.03%float.

Definition ALLOWED_ROLES : list string := ["user"; "admin"; "analyst"].

(** [req.client.host if req.client else "unknown"] *)
Definition _client_ip (client : option string) : string :=
  match client with
  | Some host => host
  | None => "unknown"
  end.

(** A function of recognition.py called from a handler: it returns, or its
    exception travels on. *)
Definition call {A} (r : Result A) : M A :=
  match r with
  | Return a => mret a
  | Raise e => raise e
  end.

Definition me `{Env} (creds : option HTTPAuthorizationCredentials) : M CurrentUser :=
  get_current_user creds.

Definition enroll `{Env} (client : option string) (username : string) (image : bytes)
    : M json :=
  let ip := _client_ip client in
  let image_bytes := image in
  match extract_embedding image_bytes with
  | Raise (ValueError e) =>
      log_event "enroll_error" (Some username) (Some ip) [("error", JStr e)];;
      raise (HTTPException 400 (JStr e))
  | Raise e => raise e
  | Return res =>
      if negb (quality_ok res)
      then
        log_event "enroll_rejected" (Some username) (Some ip)
          [("reason", JStr "quality_gate"); ("detail", JOpt JStr (quality_reason res))];;
        raise (HTTPException 400
                 (JDict [("error", JStr "quality_gate");
                         ("detail", JOpt JStr (quality_reason res))]))
      else if negb (face_count res =? 1)
      then
        log_event "enroll_rejected" (Some username) (Some ip)
          [("reason", JStr "invalid_face_count"); ("face_count", JInt (face_count res))];;
        raise (HTTPException 400
                 (JStr ("Expected exactly 1 face, found " +:+ pretty (face_count res) +:+ ".")))
      else
        (* Default role "user" on enrollment *)
        upsert_user username (embedding res) "user";;
        log_event "enroll_success" (Some username) (Some ip)
          [("note", JStr "user embedding stored")];;
        mret (JDict [("ok", JBool true); ("username", JStr username); ("role", JStr "user")])
  end.

(** The body of a 200 answer of [/verify]: the keys [authenticated],
    [token] and [role], and then those of [meta]. *)
Record VerifyResponse := {
  vr_authenticated : bool;
  vr_token : Token;
  vr_role : string;
  vr_meta : list (string * json);
}.

Definition verify `{Env} (client : option string) (username : string)
    (image1 image2 : bytes) : M VerifyResponse :=
  let ip := _client_ip client in
  '(locked, fails, remaining) ← check_lockout (Some username) ip;
  if locked : bool
  then
    log_event "verify_locked" (Some username) (Some ip)
      [("fails", JInt fails); ("seconds_remaining", JInt remaining)];;
    raise (HTTPException 429
             (JStr ("Locked out. Try again in " +:+ pretty remaining +:+ "s.")))
  else
    user_row ← get_user username;
    match user_row with
    | None =>
        log_event "verify_failed" (Some username) (Some ip)
          [("reason", JStr "unknown_user")];;
        raise (HTTPException 404 (JStr "Unknown user. Enroll first."))
    | Some user_row =>
        let enrolled_vec := Db.embedding user_row in
        let role := Db.role user_row in
        let b1 := image1 in
        let b2 := image2 in
        match extract_embedding b1, extract_embedding b2 with
        | Raise (ValueError e), _
        | Return _, Raise (ValueError e) =>
            log_event "verify_error" (Some username) (Some ip) [("error", JStr e)];;
            raise (HTTPException 400 (JStr e))
        | Raise e, _ | Return _, Raise e => raise e
        | Return r1, Return r2 =>
            if negb (quality_ok r1) || negb (quality_ok r2)
            then
              '(f, locked_now, _) ← register_fail (Some username) ip;
              log_event "verify_failed" (Some username) (Some ip)
                [("reason", JStr "quality_gate");
                 ("quality_1", JOpt JStr (quality_reason r1));
                 ("quality_2", JOpt JStr (quality_reason r2));
                 ("fails", JInt f);
                 ("locked", JBool locked_now)];;
              raise (HTTPException 400
                       (JDict [("error", JStr "quality_gate");
                               ("quality_1", JOpt JStr (quality_reason r1));
                               ("quality_2", JOpt JStr (quality_reason r2))]))
            else if negb (face_count r1 =? 1) || negb (face_count r2 =? 1)
            then
              '(f, locked_now, _) ← register_fail (Some username) ip;
              log_event "verify_failed" (Some username) (Some ip)
                [("reason", JStr "invalid_face_count");
                 ("face_count_1", JInt (face_count r1));
                 ("face_count_2", JInt (face_count r2));
                 ("fails", JInt f);
                 ("locked", JBool locked_now)];;
              raise (HTTPException 400
                       (JDict [("error", JStr "invalid_face_count");
                               ("face_count_1", JInt (face_count r1));
                               ("face_count_2", JInt (face_count r2))]))
            else
              d1 ← call (cosine_distance (embedding r1) enrolled_vec);
              d2 ← call (cosine_distance (embedding r2) enrolled_vec);
              let match1 := (d1 <=? MATCH_THRESHOLD)%float in
              let match2 := (d2 <=? MATCH_THRESHOLD)%float in
              motion ← call (motion_heuristic b1 b2);
              let liveness_pass := (MOTION_THRESHOLD <=? motion)%float in
              let authenticated := match1 && match2 && liveness_pass in
              let meta := [("d1", JFloat d1);
                           ("d2", JFloat d2);
                           ("match_threshold", JFloat MATCH_THRESHOLD);
                           ("motion", JFloat motion);
                           ("motion_threshold", JFloat MOTION_THRESHOLD);
                           ("liveness_pass", JBool liveness_pass)] in
              if authenticated
              then
                register_success (Some username) ip;;
                token ← create_access_token username role;
                log_event "verify_success" (Some username) (Some ip) meta;;
                mret {| vr_authenticated := true; vr_token := token; vr_role := role;
                        vr_meta := meta |}
              else
                '(f, locked_now, locked_until) ← register_fail (Some username) ip;
                let meta := (meta ++ [("fails", JInt f);
                                      ("locked", JBool locked_now);
                                      ("locked_until",
                                       if locked_now then JInt locked_until else JNull)])%list in
                log_event "verify_failed" (Some username) (Some ip) meta;;
                raise (HTTPException 401 (JDict (("authenticated", JBool false) :: meta)))
        end
    end.

Record Candidate := {
  c_username : string;
  c_role : string;
  distance : float;
}.

(** [list.sort(key=...)] compares keys with [<] only and is stable: an item
    goes behind every item already placed whose key is not greater. On keys
    that [<] orders totally every stable sort returns this list; with a NaN
    among the keys the order that Python's merge sort leaves depends on the
    comparisons it happens to make, and this definition does not follow
    it. *)
Fixpoint insert_by_key {A} (key : A → float) (x : A) (l : list A) : list A :=
  match l with
  | [] => [x]
  | y :: l' => if (key x <? key y)%float then x :: l else y :: insert_by_key key x l'
  end.

Definition list_sort {A} (key : A → float) (l : list A) : list A :=
  fold_left (λ acc x, insert_by_key key x acc) l [].

(** The loop over [list_users()] that fills [candidates]. *)
Fixpoint candidates_of `{Env} (probe : list float) (rows : list UserRow) (candidates : list Candidate)
    : Result (list Candidate) :=
  match rows with
  | [] => Return candidates
  | u :: rows' =>
      let emb := Db.embedding u in
      match cosine_distance probe emb with
      | Raise e => Raise e
      | Return dist =>
          candidates_of probe rows'
            (candidates ++ [ {| c_username := username u; c_role := Db.role u;
                                distance := dist |} ])%list
      end
  end.

Definition candidate_json (c : Candidate) : json :=
  JDict [("username", JStr (c_username c)); ("role", JStr (c_role c));
         ("distance", JFloat (distance c))].

Record SearchResponse := {
  sr_results : list Candidate;
  sr_match_threshold : float;
}.

Definition search `{Env} (client : option string) (image : bytes) (top_k : Z)
    (creds : option HTTPAuthorizationCredentials) : M SearchResponse :=
  user ← get_current_user creds;
  let ip := _client_ip client in
  let b := image in
  match extract_embedding b with
  | Raise (ValueError e) =>
      log_event "search_error" (Some (str_of (cu_username user)))
        (Some ip) [("error", JStr e)];;
      raise (HTTPException 400 (JStr e))
  | Raise e => raise e
  | Return r =>
      if negb (quality_ok r)
      then raise (HTTPException 400
                    (JDict [("error", JStr "quality_gate");
                            ("detail", JOpt JStr (quality_reason r))]))
      else if negb (face_count r =? 1)
      then raise (HTTPException 400
                    (JDict [("error", JStr "invalid_face_count");
                            ("face_count", JInt (face_count r))]))
      else
        rows ← list_users;
        candidates ← call (candidates_of (embedding r) rows []);
        let candidates := list_sort distance candidates in
        let results := take (Z.to_nat (Z.max 1 (Z.min top_k 25))) candidates in
        log_event "search_success"
          (Some (str_of (cu_username user))) (Some ip)
          [("top_k", JInt top_k); ("returned", JInt (Z.of_nat (length results)))];;
        mret {| sr_results := results; sr_match_threshold := MATCH_THRESHOLD |}
  end.

Definition admin_set_role `{Env} (username role : string) (client : option string)
    (creds : option HTTPAuthorizationCredentials) : M json :=
  admin ← require_role ["admin"] creds;
  let ip := _client_ip client in
  let role := str_lower (str_strip role) in
  if negb (bool_decide (role ∈ ALLOWED_ROLES))
  then raise (HTTPException 400
                (JStr "Invalid role. Allowed: ['admin', 'analyst', 'user']"))
  else
    ok ← set_user_role username role;
    if negb ok
    then raise (HTTPException 404 (JStr "User not found"))
    else
      log_event "admin_set_role"
        (Some (str_of (cu_username admin))) (Some ip)
        [("target", JStr username); ("role", JStr role)];;
      mret (JDict [("ok", JBool true); ("username", JStr username); ("role", JStr role)]).

Definition admin_events `{Env} (limit : Z) (creds : option HTTPAuthorizationCredentials)
    : M (list EventRow) :=
  _ ← require_role ["admin"; "analyst"] creds;
  list_events limit.

End App.

(** ** Running a computation *)

Import Db Security.

(** The world a computation leaves behind, and what it returned. *)
Definition exec {A} (m : M A) (w : World) : World := (m w).2.
Definition outcome {A} (m : M A) (w : World) : Result A := (m w).1.

(** [keeps f m]: running [m] never changes the part [f] of the world,
    whether [m] returns or raises. *)
Definition keeps {A B} (f : World → B) (m : M A) : Prop :=
  ∀ w, f (exec m w) = f w.

(** The world after the lockout check that opens [/verify]. *)
Definition checked (w : World) : World := with_ticks (S (ticks w)) w.

(** What [get_state] finds under a key: the stored row, or the default of
    security.py when there is none. *)
Definition stored (username : option string) (ip : string) (w : World) : LockoutState :=
  match auth_state w !! _key username ip with
  | None => {| fails := 0; locked_until := 0 |}
  | Some v => v
  end.

(** [n] calls of [register_fail] for one key, one after the other. *)
Fixpoint register_fail_times `{Env} (n : nat) (username : option string) (ip : string)
    (w : World) : World :=
  match n with
  | O => w
  | S n' => register_fail_times n' username ip (exec (register_fail username ip) w)
  end.

(** ** A small concrete environment, to run the definitions on *)

Definition float_of_Z (z : Z) : float := PrimFloat.of_uint63 (Uint63.of_Z z).

(** A buffer that starts with the byte 0xff is no image; any other is an
    image of one row, a pixel per byte. *)
Definition demo_decode (b : bytes) : option Image :=
  match b with
  | [] | Byte.xff :: _ => None
  | _ => Some {| pixels := [map (λ x, Z.of_N (Byte.to_N x)) b] |}
  end.

(** A BLAS that rounds every product and adds the products up from the
    left. *)
Definition ddot_left (a b : list float) : float :=
  fold_left (λ acc p, (acc + p.1 * p.2)%float) (combine a b) 0%float.

(** The clock starts at 1000 and advances one second per reading; an image
    is its bytes, one row of pixels; the one face found in it has the pixel
    values as its encoding; every image is sharp and well lit; two frames
    differ by 25.5 in the mean. *)
Definition demo_env : Env := {|
  clock := λ n, 1000 + Z.of_nat n;
  SECRET_KEY := "dev-insecure-secret-change-me";
  ACCESS_TOKEN_TTL_SECONDS := 3600;
  hmac_sha256 := λ key input, key +:+ "/" +:+ input.1;
  imdecode_color := demo_decode;
  imdecode_gray := demo_decode;
  cvtColor_BGR2RGB := λ img, img;
  cvtColor_BGR2GRAY := λ img, img;
  laplacian_var := λ _, 100%float;
  mean_gray := λ _, 128%float;
  face_encodings := λ img, map (map float_of_Z) (pixels img);
  mean_absdiff_256 := λ _ _, 25.5%float;
  cblas_ddot := ddot_left;
  format_1f := λ _, "0.0";
  str_strip := λ s, s;
  str_lower := λ s, s;
|}.

(** A decoder that fails on every image and a clock like the demo one. *)
Definition blind_env : Env := {|
  clock := λ n, 1000 + Z.of_nat n;
  SECRET_KEY := "other";
  ACCESS_TOKEN_TTL_SECONDS := 1;
  hmac_sha256 := λ _ _, "";
  imdecode_color := λ _, None;
  imdecode_gray := λ _, None;
  cvtColor_BGR2RGB := λ img, img;
  cvtColor_BGR2GRAY := λ img, img;
  laplacian_var := λ _, 0%float;
  mean_gray := λ _, 0%float;
  face_encodings := λ _, [];
  mean_absdiff_256 := λ _ _, 0%float;
  cblas_ddot := ddot_left;
  format_1f := λ _, "";
  str_strip := λ s, s;
  str_lower := λ s, s;
|}.

(** ** register_fail, cut at its database transactions

    [register_fail] runs [get_state], which is one transaction on its own
    connection, then reads the clock and computes, then runs [set_state],
    a second transaction on a second connection. Nothing in security.py or
    db.py holds a lock from the first to the second, so when several calls
    run in several worker threads or processes on one database file, the
    transactions of one call may fall between those of another. *)

Module Interleave.

Inductive Call :=
| Start
| Loaded (state : LockoutState)
| Done (result : Z * bool * Z).

(** The next transaction of one call. *)
Definition step `{Env} (username : option string) (ip : string) (c : Call) : M Call :=
  match c with
  | Start =>
      state ← get_state (_key username ip) {| fails := 0; locked_until := 0 |};
      mret (Loaded state)
  | Loaded state =>
      now ← time_time;
      let fails_ := fails state + 1 in
      let locked_until_ := locked_until state in
      let '(locked, locked_until_) :=
        if MAX_FAILS <=? fails_
        then (true, now + LOCKOUT_SECONDS)
        else (false, locked_until_) in
      set_state (_key username ip) {| fails := fails_; locked_until := locked_until_ |};;
      mret (Done (fails_, locked, locked_until_))
  | Done result => mret (Done result)
  end.

(** A schedule names, transaction by transaction, the call that moves. *)
Fixpoint run `{Env} (username : option string) (ip : string) (schedule : list nat)
    (calls : list Call) (w : World) : list Call * World :=
  match schedule with
  | [] => (calls, w)
  | i :: schedule' =>
      match calls !! i with
      | None => run username ip schedule' calls w
      | Some c =>
          match step username ip c w with
          | (Return c', w') => run username ip schedule' (<[i := c']> calls) w'
          | (Raise _, w') => run username ip schedule' calls w'
          end
      end
  end.

(** Every call runs its two transactions before the next call starts. *)
Definition serial (first n : nat) : list nat :=
  flat_map (λ i, [i; i]) (seq first n).

Definition all_done (calls : list Call) : bool :=
  forallb (λ c, match c with Done _ => true | _ => false end) calls.

End Interleave.

(** ** Words for the order of binary64 *)

(** A number that orders the values of a float that are not NaN the way
    [SFcompare] does: the sign class first, then the exponent, then the
    mantissa, the last two reversed below zero. *)
Definition sf_rank (x : spec_float) : Z * Z * Z :=
  match x with
  | S754_zero _ => (0, 0, 0)
  | S754_infinity true => (-2, 0, 0)
  | S754_infinity false => (2, 0, 0)
  | S754_nan => (0, 0, 0)
  | S754_finite true m e => (-1, - e, - Z.pos m)
  | S754_finite false m e => (1, e, Z.pos m)
  end.

Definition lex_compare (a b : Z * Z * Z) : comparison :=
  match a.1.1 ?= b.1.1 with
  | Eq => match a.1.2 ?= b.1.2 with
          | Eq => a.2 ?= b.2
          | c => c
          end
  | c => c
  end.

Definition lex_lt (a b : Z * Z * Z) : Prop :=
  a.1.1 < b.1.1 ∨ (a.1.1 = b.1.1 ∧ (a.1.2 < b.1.2 ∨ (a.1.2 = b.1.2 ∧ a.2 < b.2))).

(** The rank of a float that is not NaN. *)
Definition rank (x : float) : Z * Z * Z := sf_rank (Prim2SF x).

(** ** Words for the scale of binary64 *)




(** ** Words for the properties of [/search] *)

Definition no_nan {A} (key : A → float) (l : list A) : Prop :=
  Forall (λ x, PrimFloat.is_nan (key x) = false) l.

Definition key_le {A} (key : A → float) (a b : A) : Prop :=
  (key a <=? key b)%float = true.

Definition same_key {A} (key : A → float) (d : float) (x : A) : bool :=
  (key x =? d)%float.

(** What [candidates] holds for a row of [users]. *)
Definition candidate_for `{Env} (probe : list float) (u : UserRow) (c : App.Candidate) : Prop :=
  App.c_username c = username u ∧
  App.c_role c = role u ∧
  Recognition.cosine_distance probe (embedding u) = Return (App.distance c).

(** The order the specification words: by distance, and by username
    among equal distances. *)
Definition by_distance_then_username (a b : App.Candidate) : bool :=
  (App.distance a <? App.distance b)%float
  || ((App.distance a =? App.distance b)%float
      && String.leb (App.c_username a) (App.c_username b)).

Fixpoint sorted_by {A} (le : A → A → bool) (l : list A) : bool :=
  match l with
  | a :: (b :: _) as l' => le a b && sorted_by le l'
  | _ => true
  end.

(** A token of the demo environment for "alice", good until 4600, and the
    header that carries it. *)
Definition demo_token : Auth.Token :=
  Auth.jwt_encode (H := demo_env)
    [("sub", JStr "alice"); ("role", JStr "user"); ("iat", JInt 1000); ("exp", JInt 4600)]
    (SECRET_KEY (Env := demo_env)) Auth.ALGORITHM.

Definition demo_creds : option Auth.HTTPAuthorizationCredentials :=
  Some {| Auth.scheme := "bearer"; Auth.credentials := demo_token |}.

(** Users enrolled one after the other from the demo address. *)
Fixpoint enroll_all `{Env} (l : list (string * bytes)) (w : World) : World :=
  match l with
  | [] => w
  | (u, image) :: l' => enroll_all l' (exec (App.enroll (Some "10.0.0.7") u image) w)
  end.

(** "alice" enrolled and then made an admin by [set_user_role]. *)
Definition alice_admin : World :=
  exec (Db.set_user_role "alice" "admin")
    (enroll_all (H := demo_env) [("alice", [Byte.x03; Byte.x04])] init_db).

(** ** The routes of app.py *)

(** A request to one of the six routes, with what the route reads of it. *)
Inductive Request :=
| GetMe (creds : option Auth.HTTPAuthorizationCredentials)
| PostEnroll (client : option string) (username : string) (image : bytes)
| PostVerify (client : option string) (username : string) (image1 image2 : bytes)
| PostSearch (client : option string) (image : bytes) (top_k : Z)
    (creds : option Auth.HTTPAuthorizationCredentials)
| PostAdminSetRole (username role : string) (client : option string)
    (creds : option Auth.HTTPAuthorizationCredentials)
| GetAdminEvents (limit : Z) (creds : option Auth.HTTPAuthorizationCredentials).

(** The world after the route's handler has answered. *)
Definition serve `{Env} (r : Request) (w : World) : World :=
  match r with
  | GetMe creds => exec (App.me creds) w
  | PostEnroll client username image => exec (App.enroll client username image) w
  | PostVerify client username image1 image2 =>
      exec (App.verify client username image1 image2) w
  | PostSearch client image top_k creds => exec (App.search client image top_k creds) w
  | PostAdminSetRole username role client creds =>
      exec (App.admin_set_role username role client creds) w
  | GetAdminEvents limit creds => exec (App.admin_events limit creds) w
  end.

(** Requests answered one after the other. *)
Definition serve_all `{Env} (rs : list Request) (w : World) : World :=
  fold_left (λ w r, serve r w) rs w.

(** [preserves P m]: when [P] holds of the world before [m], it holds of
    the world after, whether [m] returns or raises. *)
Definition preserves {A} (P : World → Prop) (m : M A) : Prop :=
  ∀ w, P w → P (exec m w).

(** No two rows of [users] have one username. *)
Definition unique_usernames (w : World) : Prop :=
  NoDup (map Db.username (users w)).

(** Every stored role is one of [ALLOWED_ROLES]. *)
Definition roles_allowed (w : World) : Prop :=
  Forall (λ row, Db.role row ∈ App.ALLOWED_ROLES) (users w).

(** Every lockout row has a count that is not negative, and a lock only
    with a count that has reached [MAX_FAILS]. *)
Definition lockout_consistent (w : World) : Prop :=
  ∀ key state, auth_state w !! key = Some state →
    0 ≤ fails state ∧ (fails state < MAX_FAILS → locked_until state = 0).

(** The string has no colon in it. *)
Fixpoint colon_free (s : string) : bool :=
  match s with
  | EmptyString => true
  | String c s' => negb (String.eqb (String c EmptyString) ":") && colon_free s'
  end.

(** The demo environment with another sharpness and another face encoder. *)
Definition demo_env_with (blur : float) (faces : Image → list (list float)) : Env := {|
  clock := λ n, 1000 + Z.of_nat n;
  SECRET_KEY := "dev-insecure-secret-change-me";
  ACCESS_TOKEN_TTL_SECONDS := 3600;
  hmac_sha256 := λ key input, key +:+ "/" +:+ input.1;
  imdecode_color := demo_decode;
  imdecode_gray := demo_decode;
  cvtColor_BGR2RGB := λ img, img;
  cvtColor_BGR2GRAY := λ img, img;
  laplacian_var := λ _, blur;
  mean_gray := λ _, 128%float;
  face_encodings := faces;
  mean_absdiff_256 := λ _ _, 25.5%float;
  cblas_ddot := ddot_left;
  format_1f := λ _, "0.0";
  str_strip := λ s, s;
  str_lower := λ s, s;
|}.

(** Every image is blurred. *)
Definition blurry_env : Env := demo_env_with 10%float (λ img, map (map float_of_Z) (pixels img)).

(** Every image shows two faces. *)
Definition crowd_env : Env := demo_env_with 100%float (λ _, [[1%float]; [2%float]]).

(** The header with a token. *)
Definition bearer (token : Auth.Token) : option Auth.HTTPAuthorizationCredentials :=
  Some {| Auth.scheme := "bearer"; Auth.credentials := token |}.

(** A token of the demo environment for "root" with the role [r], good
    until 4600. *)
Definition demo_token_of (r : string) : Auth.Token :=
  Auth.jwt_encode (H := demo_env)
    [("sub", JStr "root"); ("role", JStr r); ("iat", JInt 1000); ("exp", JInt 4600)]
    (SECRET_KEY (Env := demo_env)) Auth.ALGORITHM.

(** The three tables, without the count of clock readings. *)
Definition tables (w : World) : gmap string LockoutState * list UserRow * list EventRow :=
  (auth_state w, users w, events w).

(** What a property of the world must withstand to hold after every
    request: a reading of the clock, an appended event, the upsert of
    [/enroll], a role change to an allowed role, and the two writers of
    security.py. *)
Record stable `{Env} (P : World → Prop) : Prop := {
  st_tables : ∀ w w', tables w = tables w' → P w → P w';
  st_log : ∀ e w, P w → P (with_events (events w ++ [e]) w);
  st_upsert : ∀ u emb now w,
    P w → P (with_users (upsert_rows u emb "user" now (users w)) w);
  st_set_role : ∀ u r w,
    r ∈ App.ALLOWED_ROLES → P w → P (with_users (map (set_role_row u r) (users w)) w);
  st_fail : ∀ u ip, preserves P (register_fail u ip);
  st_success : ∀ u ip, preserves P (register_success u ip);
}.


(** * Properties *)

(** ** The lockout counter *)

Section Lockout.
Context `{Env}.
Implicit Types (username : option string) (ip : string) (w : World).

Lemma check_lockout_run username ip w :
  check_lockout username ip w =
  let state := stored username ip w in
  let now := clock (ticks w) in
  (Return (if now <? locked_until state
           then (true, fails state, locked_until state - now)
           else (false, fails state, 0)),
   with_ticks (S (ticks w)) w).
Proof.
  unfold check_lockout, stored, mbind, M_bind, get_state, time_time; simpl.
  destruct (auth_state w !! _key username ip) as [state|]; simpl;
    destruct (_ <? _); reflexivity.
Qed.

Lemma register_fail_run username ip w :
  register_fail username ip w =
  let state := stored username ip w in
  let now := clock (ticks w) in
  let n := fails state + 1 in
  let until := if MAX_FAILS <=? n then now + LOCKOUT_SECONDS else locked_until state in
  (Return (n, MAX_FAILS <=? n, until),
   with_auth_state
     (<[_key username ip := {| fails := n; locked_until := until |}]> (auth_state w))
     (with_ticks (S (ticks w)) w)).
Proof.
  unfold register_fail, stored, mbind, M_bind, get_state, set_state, time_time; simpl.
  destruct (auth_state w !! _key username ip) as [state|]; [|reflexivity].
  simpl. destruct (MAX_FAILS <=? _); reflexivity.
Qed.

Lemma register_success_run username ip w :
  register_success username ip w =
  (Return (),
   with_auth_state
     (<[_key username ip := {| fails := 0; locked_until := 0 |}]> (auth_state w)) w).
Proof. reflexivity. Qed.

Lemma stored_insert username ip w v (w' : World) :
  auth_state w' = <[_key username ip := v]> (auth_state w) →
  stored username ip w' = v.
Proof. intros E. unfold stored. rewrite E, lookup_insert_eq. reflexivity. Qed.

Lemma stored_register_fail username ip w :
  stored username ip (exec (register_fail username ip) w) =
  let state := stored username ip w in
  {| fails := fails state + 1;
     locked_until := if MAX_FAILS <=? fails state + 1
                     then clock (ticks w) + LOCKOUT_SECONDS
                     else locked_until state |}.
Proof.
  unfold exec. rewrite register_fail_run. simpl.
  erewrite stored_insert; [reflexivity|]. reflexivity.
Qed.

Lemma ticks_register_fail username ip w :
  ticks (exec (register_fail username ip) w) = S (ticks w).
Proof. unfold exec. rewrite register_fail_run. reflexivity. Qed.

(** [n] failures in a row add [n] to the count; the lock is set by the last
    of them when the count has reached [MAX_FAILS], and is untouched else. *)
Lemma register_fail_times_stored n username ip w :
  let state := stored username ip w in
  let w' := register_fail_times n username ip w in
  ticks w' = (ticks w + n)%nat ∧
  fails (stored username ip w') = fails state + Z.of_nat n ∧
  locked_until (stored username ip w') =
    match n with
    | O => locked_until state
    | S m => if MAX_FAILS <=? fails state + Z.of_nat n
             then clock (ticks w + m) + LOCKOUT_SECONDS
             else locked_until state
    end.
Proof.
  revert w. induction n as [|n IH]; intros w.
  - cbn. split; [lia|]. split; [lia|reflexivity].
  - cbn zeta. cbn [register_fail_times].
    destruct (IH (exec (register_fail username ip) w)) as (Ht & Hf & Hl).
    rewrite ticks_register_fail in Ht, Hl.
    rewrite stored_register_fail in Hf, Hl.
    cbn [fails locked_until] in Hf, Hl. cbn zeta in Hf, Hl.
    split; [lia|]. split; [lia|].
    rewrite Hl. unfold MAX_FAILS. destruct n as [|m].
    + replace (ticks w + 0)%nat with (ticks w) by lia. reflexivity.
    + replace (S (ticks w) + m)%nat with (ticks w + S m)%nat by lia.
      destruct (Z.leb_spec 5 (fails (stored username ip w) + 1 + Z.of_nat (S m))),
               (Z.leb_spec 5 (fails (stored username ip w) + Z.of_nat (S (S m)))),
               (Z.leb_spec 5 (fails (stored username ip w) + 1));
        try lia; reflexivity.
Qed.

End Lockout.

(** ** What a computation leaves alone *)

Section Keeps.
Context `{Env} {B : Type} (f : World → B).

Lemma keeps_mret {A} (a : A) : keeps f (mret a).
Proof. intros w. reflexivity. Qed.

Lemma keeps_raise {A} (e : Exc) : keeps f (raise e : M A).
Proof. intros w. reflexivity. Qed.

Lemma keeps_bind {A C} (m : M A) (k : A → M C) :
  keeps f m → (∀ a, keeps f (k a)) → keeps f (m ≫= k).
Proof.
  intros Hm Hk w. unfold exec, mbind, M_bind. specialize (Hm w). unfold exec in Hm.
  destruct (m w) as [[a|e] w1]; simpl in *.
  - rewrite <- Hm. apply Hk.
  - exact Hm.
Qed.

Lemma keeps_call {A} (r : Result A) : keeps f (App.call r).
Proof. destruct r; intros w; reflexivity. Qed.

(** The clock is not part of the tables. *)
Hypothesis f_ticks : ∀ n w, f (with_ticks n w) = f w.

Lemma keeps_time_time : keeps f time_time.
Proof. intros w. unfold exec, time_time. simpl. apply f_ticks. Qed.

Lemma keeps_get_state key d : keeps f (get_state key d).
Proof. intros w. reflexivity. Qed.

Lemma keeps_get_user u : keeps f (get_user u).
Proof. intros w. reflexivity. Qed.

Lemma keeps_list_users : keeps f list_users.
Proof. intros w. reflexivity. Qed.

Lemma keeps_list_events limit : keeps f (list_events limit).
Proof. intros w. unfold list_events. destruct (_ || _); reflexivity. Qed.

Lemma keeps_check_lockout username ip : keeps f (check_lockout username ip).
Proof.
  intros w. unfold exec. rewrite check_lockout_run. simpl. apply f_ticks.
Qed.

Lemma keeps_jwt_decode token key algorithms :
  keeps f (Auth.jwt_decode token key algorithms).
Proof.
  unfold Auth.jwt_decode. destruct token as [s|jws]; [apply keeps_raise|].
  destruct (negb _); [apply keeps_raise|].
  destruct (negb _); [apply keeps_raise|].
  apply keeps_bind.
  { unfold Auth._validate_iat. destruct (Auth.dict_get _ _) as [[]|];
      try apply keeps_raise; apply keeps_mret. }
  intros _. apply keeps_bind.
  { unfold Auth._validate_exp. destruct (Auth.dict_get _ _) as [[]|];
      try apply keeps_raise; try apply keeps_mret.
    apply keeps_bind; [apply keeps_time_time|].
    intros now. destruct (_ <? _); [apply keeps_raise|apply keeps_mret]. }
  intros _. apply keeps_bind; [|intros _; apply keeps_mret].
  unfold Auth._validate_sub. destruct (Auth.dict_get _ _) as [[]|];
    try apply keeps_raise; apply keeps_mret.
Qed.

Lemma keeps_decode_token token : keeps f (Auth.decode_token token).
Proof.
  intros w. pose proof (keeps_jwt_decode token SECRET_KEY [Auth.ALGORITHM] w) as E.
  unfold exec, Auth.decode_token in *.
  destruct (Auth.jwt_decode _ _ _ w) as [[a|[]] w1]; exact E.
Qed.

Lemma keeps_create_access_token username role :
  keeps f (Auth.create_access_token username role).
Proof.
  unfold Auth.create_access_token.
  apply keeps_bind; [apply keeps_time_time|]. intros now. apply keeps_mret.
Qed.

Lemma keeps_get_current_user creds : keeps f (Auth.get_current_user creds).
Proof.
  unfold Auth.get_current_user. destruct creds as [c|]; [|apply keeps_raise].
  destruct (negb _); [apply keeps_raise|].
  apply keeps_bind; [apply keeps_decode_token|].
  intros payload. destruct (Auth.falsy _); [apply keeps_raise|apply keeps_mret].
Qed.

Lemma keeps_require_role allowed creds : keeps f (Auth.require_role allowed creds).
Proof.
  unfold Auth.require_role. apply keeps_bind; [apply keeps_get_current_user|].
  intros user. destruct (negb _); [apply keeps_raise|apply keeps_mret].
Qed.

End Keeps.

Section KeepsWrites.
Context `{Env} {B : Type} (f : World → B).
Hypothesis f_ticks : ∀ n w, f (with_ticks n w) = f w.

Lemma keeps_log_event event_type username ip meta :
  (∀ e w, f (with_events e w) = f w) →
  keeps f (log_event event_type username ip meta).
Proof.
  intros f_events w. unfold exec, log_event, mbind, M_bind, time_time. simpl.
  rewrite f_events. apply f_ticks.
Qed.

Lemma keeps_upsert_user username embedding role :
  (∀ u w, f (with_users u w) = f w) →
  keeps f (upsert_user username embedding role).
Proof.
  intros f_users w. unfold exec, upsert_user, mbind, M_bind, time_time. simpl.
  rewrite f_users. apply f_ticks.
Qed.

Lemma keeps_set_user_role username role :
  (∀ u w, f (with_users u w) = f w) →
  keeps f (set_user_role username role).
Proof. intros f_users w. unfold exec, set_user_role. simpl. apply f_users. Qed.

Lemma keeps_set_state key value :
  (∀ m w, f (with_auth_state m w) = f w) →
  keeps f (set_state key value).
Proof. intros f_auth w. unfold exec, set_state. simpl. apply f_auth. Qed.

Lemma keeps_register_fail username ip :
  (∀ m w, f (with_auth_state m w) = f w) →
  keeps f (register_fail username ip).
Proof.
  intros f_auth w. unfold exec. rewrite register_fail_run. simpl.
  rewrite f_auth. apply f_ticks.
Qed.

Lemma keeps_register_success username ip :
  (∀ m w, f (with_auth_state m w) = f w) →
  keeps f (register_success username ip).
Proof. intros f_auth. apply keeps_set_state, f_auth. Qed.

End KeepsWrites.

(** One step of a frame proof: a library lemma, or a case of the code. *)
Ltac keeps_step :=
  first
    [ apply keeps_mret
    | apply keeps_raise
    | apply keeps_call
    | apply keeps_time_time; reflexivity
    | apply keeps_get_state
    | apply keeps_get_user
    | apply keeps_list_users
    | apply keeps_list_events
    | apply keeps_check_lockout; reflexivity
    | apply keeps_get_current_user; reflexivity
    | apply keeps_require_role; reflexivity
    | apply keeps_create_access_token; reflexivity
    | apply keeps_log_event; reflexivity
    | apply keeps_upsert_user; reflexivity
    | apply keeps_set_user_role; reflexivity
    | apply keeps_register_fail; reflexivity
    | apply keeps_register_success; reflexivity
    | apply keeps_bind; [|intros ?]
    | match goal with
      | |- keeps _ (match ?x with _ => _ end) => destruct x
      | |- keeps _ (let '(_, _) := ?x in _) => destruct x
      end ].

Ltac keeps_tac := repeat keeps_step.

Section Handlers.
Context `{Env}.

Lemma enroll_keeps_auth_state client username image :
  keeps auth_state (App.enroll client username image).
Proof. unfold App.enroll. keeps_tac. Qed.

Lemma search_keeps_auth_state client image top_k creds :
  keeps auth_state (App.search client image top_k creds).
Proof. unfold App.search. keeps_tac. Qed.

Lemma search_keeps_users client image top_k creds :
  keeps users (App.search client image top_k creds).
Proof. unfold App.search. keeps_tac. Qed.

Lemma me_keeps_auth_state creds : keeps auth_state (App.me creds).
Proof. unfold App.me. keeps_tac. Qed.

Lemma me_keeps_users creds : keeps users (App.me creds).
Proof. unfold App.me. keeps_tac. Qed.

Lemma admin_set_role_keeps_auth_state username role client creds :
  keeps auth_state (App.admin_set_role username role client creds).
Proof. unfold App.admin_set_role. keeps_tac. Qed.

Lemma admin_events_keeps_auth_state limit creds :
  keeps auth_state (App.admin_events limit creds).
Proof. unfold App.admin_events. keeps_tac. Qed.

Lemma admin_events_keeps_users limit creds :
  keeps users (App.admin_events limit creds).
Proof. unfold App.admin_events. keeps_tac. Qed.

Lemma verify_keeps_users client username image1 image2 :
  keeps users (App.verify client username image1 image2).
Proof. unfold App.verify. keeps_tac. Qed.

End Handlers.

(** ** C1 and C10: the lockout state machine *)

(** C1: [register_fail] adds exactly 1 to the stored count of its key. When
    the new count has reached [MAX_FAILS] it answers locked and stores
    [locked_until = now + LOCKOUT_SECONDS]; otherwise it answers not locked
    and leaves [locked_until] as it was, so a key that was clear is still
    clear at the next check. [register_success] stores fails 0 and
    [locked_until] 0 whatever was there. Five calls of [register_fail] on a
    key without a row store fails 5 and a lock of 60 seconds from the fifth
    call, and a check [d] seconds later, [d < 60], answers locked with
    [60 - d] seconds remaining. *)
Theorem lockout_transitions `{Env} (username : option string) (ip : string) (w : World) :
  let before := stored username ip w in
  let now := clock (ticks w) in
  let after := stored username ip (exec (register_fail username ip) w) in
  fails after = fails before + 1 ∧
  (MAX_FAILS ≤ fails after →
     after = {| fails := fails before + 1; locked_until := now + LOCKOUT_SECONDS |} ∧
     outcome (register_fail username ip) w
       = Return (fails before + 1, true, now + LOCKOUT_SECONDS)) ∧
  (fails after < MAX_FAILS →
     after = {| fails := fails before + 1; locked_until := locked_until before |} ∧
     outcome (register_fail username ip) w
       = Return (fails before + 1, false, locked_until before) ∧
     (locked_until before ≤ clock (S (ticks w)) →
      outcome (check_lockout username ip) (exec (register_fail username ip) w)
        = Return (false, fails before + 1, 0))) ∧
  stored username ip (exec (register_success username ip) w)
    = {| fails := 0; locked_until := 0 |} ∧
  (auth_state w !! _key username ip = None →
     let w5 := register_fail_times 5 username ip w in
     let t5 := clock (ticks w + 4) in
     let t6 := clock (ticks w + 5) in
     stored username ip w5 = {| fails := 5; locked_until := t5 + 60 |} ∧
     (t6 < t5 + 60 →
      outcome (check_lockout username ip) w5 = Return (true, 5, 60 - (t6 - t5)))).
Proof.
  cbn zeta. rewrite stored_register_fail. cbn zeta. cbn [fails locked_until].
  unfold outcome. rewrite register_fail_run. cbn zeta. cbn [fst].
  split; [reflexivity|]. split; [|split; [|split]].
  - intros Hmax. apply Z.leb_le in Hmax. rewrite Hmax. split; reflexivity.
  - intros Hlt. apply Z.leb_gt in Hlt. rewrite Hlt.
    split; [reflexivity|]. split; [reflexivity|].
    intros Hclear. rewrite check_lockout_run. cbn zeta.
    rewrite stored_register_fail, ticks_register_fail. cbn zeta.
    rewrite Hlt. cbn [fails locked_until fst].
    destruct (Z.ltb_spec (clock (S (ticks w))) (locked_until (stored username ip w)));
      [lia|reflexivity].
  - unfold exec. rewrite register_success_run. cbn [snd].
    apply (stored_insert username ip w). reflexivity.
  - intros Hfresh.
    destruct (register_fail_times_stored 5 username ip w) as (Ht & Hf & Hl).
    assert (Hw : stored username ip w = {| fails := 0; locked_until := 0 |})
      by (unfold stored; rewrite Hfresh; reflexivity).
    rewrite Hw in Hf, Hl. cbn [fails locked_until] in Hf, Hl.
    change (MAX_FAILS <=? 0 + Z.of_nat 5) with true in Hl. cbn iota in Hl.
    unfold LOCKOUT_SECONDS in Hl.
    split.
    + destruct (stored username ip (register_fail_times 5 username ip w)) as [f l].
      cbn [fails locked_until] in Hf, Hl. subst f l. reflexivity.
    + intros Hsoon. rewrite check_lockout_run. cbn zeta. cbn [fst].
      rewrite Ht, Hf, Hl.
      destruct (Z.ltb_spec (clock (ticks w + 5)) (clock (ticks w + 4) + 60)); [|lia].
      do 2 f_equal. lia.
Qed.

(** Five failures of "alice" from one address on a new database, the clock
    one second further at every reading: locked, 59 seconds to go. *)
Lemma lockout_transitions_witness :
  outcome (check_lockout (H := demo_env) (Some "alice") "10.0.0.7")
    (register_fail_times (H := demo_env) 5 (Some "alice") "10.0.0.7" init_db)
  = Return (true, 5, 59).
Proof.
  destruct (lockout_transitions (H := demo_env) (Some "alice") "10.0.0.7" init_db)
    as (_ & _ & _ & _ & Hfive).
  destruct (Hfive ltac:(reflexivity)) as (_ & Hcheck).
  apply Hcheck. vm_compute. reflexivity.
Defined.

(** C10: [check_lockout] writes nothing: the lockout rows, the users and
    the events are after a check what they were before, and a check against
    an empty [auth_state] leaves it empty. The other readers of db.py and
    the handlers that do not call [register_fail] or [register_success]
    leave the lockout rows alone as well; [set_state] is called by those two
    functions only. *)
Theorem check_lockout_writes_nothing `{Env} (username : option string) (ip : string)
    (w : World) :
  let w' := exec (check_lockout username ip) w in
  auth_state w' = auth_state w ∧
  users w' = users w ∧
  events w' = events w ∧
  auth_state (exec (check_lockout username ip) (with_auth_state ∅ w)) = ∅ ∧
  (∀ key d, keeps auth_state (get_state key d)) ∧
  (∀ client u image, keeps auth_state (App.enroll client u image)) ∧
  (∀ client image top_k creds, keeps auth_state (App.search client image top_k creds)) ∧
  (∀ creds, keeps auth_state (App.me creds)) ∧
  (∀ u r client creds, keeps auth_state (App.admin_set_role u r client creds)) ∧
  (∀ limit creds, keeps auth_state (App.admin_events limit creds)).
Proof.
  cbn zeta. unfold exec at 1 2 3 4. rewrite !check_lockout_run. cbn.
  repeat apply conj; try reflexivity.
  - intros key d. apply keeps_get_state.
  - intros. apply enroll_keeps_auth_state.
  - intros. apply search_keeps_auth_state.
  - intros. apply me_keeps_auth_state.
  - intros. apply admin_set_role_keeps_auth_state.
  - intros. apply admin_events_keeps_auth_state.
Qed.

(** ** C3 and C4: the verification pipeline *)

Section Verify.
Context `{Env}.
Import Recognition.

Lemma bind_return {A B} (m : M A) (k : A → M B) w a w' :
  m w = (Return a, w') → (m ≫= k) w = k a w'.
Proof. intros E. unfold mbind, M_bind. rewrite E. reflexivity. Qed.

Lemma bind_raise {A B} (m : M A) (k : A → M B) w e w' :
  m w = (Raise e, w') → (m ≫= k) w = (Raise e, w').
Proof. intros E. unfold mbind, M_bind. rewrite E. reflexivity. Qed.

Lemma log_event_run event_type username ip meta w :
  log_event event_type username ip meta w =
  (Return (),
   with_events (events w ++ [ {| ts := clock (ticks w); event_type := event_type;
                                ev_username := username; ev_ip := ip; meta := meta |} ])
     (with_ticks (S (ticks w)) w)).
Proof. reflexivity. Qed.

Lemma verify_locked_run client username image1 image2 w :
  let state := stored (Some username) (App._client_ip client) w in
  let now := clock (ticks w) in
  now < locked_until state →
  App.verify client username image1 image2 w =
  (Raise (HTTPException 429
            (JStr ("Locked out. Try again in " +:+ pretty (locked_until state - now) +:+ "s."))),
   with_events
     (events w ++ [ {| ts := clock (S (ticks w)); event_type := "verify_locked";
                      ev_username := Some username;
                      ev_ip := Some (App._client_ip client);
                      meta := [("fails", JInt (fails state));
                               ("seconds_remaining", JInt (locked_until state - now))] |} ])
     (with_ticks (S (S (ticks w))) w)).
Proof.
  cbn zeta. intros Hlocked. apply Z.ltb_lt in Hlocked.
  unfold App.verify.
  erewrite bind_return by (rewrite check_lockout_run; cbn zeta; rewrite Hlocked; reflexivity).
  cbn beta iota.
  erewrite bind_return by apply log_event_run.
  reflexivity.
Qed.


(** An image that [extract_embedding] has answered is not the empty
    buffer, and of two such buffers [motion_heuristic] returns a score. *)
Lemma extract_embedding_nonempty image r :
  extract_embedding image = Return r → image ≠ [].
Proof. intros Hx ->. discriminate. Qed.

Lemma motion_heuristic_returns image1 image2 :
  image1 ≠ [] → image2 ≠ [] →
  ∃ motion, motion_heuristic image1 image2 = Return motion.
Proof.
  intros H1 H2. unfold motion_heuristic, cv2_imdecode.
  destruct image1 as [|x1 l1]; [congruence|]. destruct image2 as [|x2 l2]; [congruence|].
  destruct (imdecode_gray (x1 :: l1)) as [g1|];
    [destruct (imdecode_gray (x2 :: l2)) as [g2|]|];
    eexists; reflexivity.
Qed.

(** Past the four gates, with both distances and the motion score
    computed, [/verify] is decided by the two matches and the liveness test
    alone. *)
Lemma verify_decision_run client username image1 image2 w row r1 r2 d1 d2 motion :
  let ip := App._client_ip client in
  let state := stored (Some username) ip w in
  let liveness_pass := (App.MOTION_THRESHOLD <=? motion)%float in
  let meta := [("d1", JFloat d1); ("d2", JFloat d2);
               ("match_threshold", JFloat App.MATCH_THRESHOLD);
               ("motion", JFloat motion);
               ("motion_threshold", JFloat App.MOTION_THRESHOLD);
               ("liveness_pass", JBool liveness_pass)] in
  locked_until state ≤ clock (ticks w) →
  find (λ row, String.eqb (Db.username row) username) (users w) = Some row →
  extract_embedding image1 = Return r1 →
  extract_embedding image2 = Return r2 →
  quality_ok r1 = true → quality_ok r2 = true →
  face_count r1 = 1 → face_count r2 = 1 →
  cosine_distance (embedding r1) (Db.embedding row) = Return d1 →
  cosine_distance (embedding r2) (Db.embedding row) = Return d2 →
  motion_heuristic image1 image2 = Return motion →
  App.verify client username image1 image2 w =
  if (d1 <=? App.MATCH_THRESHOLD)%float && (d2 <=? App.MATCH_THRESHOLD)%float
     && liveness_pass
  then
    (register_success (Some username) ip;;
     token ← Auth.create_access_token username (Db.role row);
     log_event "verify_success" (Some username) (Some ip) meta;;
     mret {| App.vr_authenticated := true; App.vr_token := token;
             App.vr_role := Db.role row; App.vr_meta := meta |}) (checked w)
  else
    ('(f, locked_now, locked_until) ← register_fail (Some username) ip;
     let meta := (meta ++ [("fails", JInt f); ("locked", JBool locked_now);
                           ("locked_until",
                            if locked_now then JInt locked_until else JNull)])%list in
     log_event "verify_failed" (Some username) (Some ip) meta;;
     raise (HTTPException 401 (JDict (("authenticated", JBool false) :: meta))))
      (checked w).
Proof.
  cbn zeta. intros Hclear Hrow Hx1 Hx2 Hq1 Hq2 Hf1 Hf2 Hd1 Hd2 Hm.
  unfold App.verify.
  assert (Hnot : (clock (ticks w) <? locked_until (stored (Some username) (App._client_ip client) w)) = false)
    by (apply Z.ltb_ge; exact Hclear).
  erewrite bind_return by (rewrite check_lockout_run; cbn zeta; rewrite Hnot; reflexivity).
  cbn beta iota.
  erewrite bind_return by (unfold get_user; cbn [users with_ticks]; rewrite Hrow; reflexivity).
  rewrite Hx1, Hx2, Hq1, Hq2, Hf1, Hf2. cbn [negb orb Z.eqb Pos.eqb].
  rewrite Hd1, Hd2, Hm.
  erewrite bind_return by reflexivity.
  erewrite bind_return by reflexivity.
  erewrite bind_return by reflexivity.
  cbn zeta. destruct (_ && _ && _); reflexivity.
Qed.


(** C3: a request that has passed the lockout, identity, quality and
    face-count gates, and whose two distances [d1] and [d2] to the template
    are computed, gets a motion score from [motion_heuristic] and is
    answered 200 exactly when [d1 <= MATCH_THRESHOLD] and
    [d2 <= MATCH_THRESHOLD] and [motion >= MOTION_THRESHOLD]. Then the
    answer says authenticated and the key's row is reset. When one of the
    three fails the answer is the exception 401, raised after a
    [register_fail] that has added 1 to the key's count. *)
Theorem verify_authenticated_iff client username image1 image2 w row r1 r2 d1 d2 :
  let ip := App._client_ip client in
  let w' := exec (App.verify client username image1 image2) w in
  locked_until (stored (Some username) ip w) ≤ clock (ticks w) →
  find (λ row, String.eqb (Db.username row) username) (users w) = Some row →
  extract_embedding image1 = Return r1 →
  extract_embedding image2 = Return r2 →
  quality_ok r1 = true → quality_ok r2 = true →
  face_count r1 = 1 → face_count r2 = 1 →
  cosine_distance (embedding r1) (Db.embedding row) = Return d1 →
  cosine_distance (embedding r2) (Db.embedding row) = Return d2 →
  ∃ motion,
  motion_heuristic image1 image2 = Return motion ∧
  ((∃ resp, outcome (App.verify client username image1 image2) w = Return resp) ↔
   (d1 <=? App.MATCH_THRESHOLD)%float = true ∧
   (d2 <=? App.MATCH_THRESHOLD)%float = true ∧
   (App.MOTION_THRESHOLD <=? motion)%float = true) ∧
  ((d1 <=? App.MATCH_THRESHOLD)%float && (d2 <=? App.MATCH_THRESHOLD)%float
     && (App.MOTION_THRESHOLD <=? motion)%float = true →
   (∃ token meta,
      outcome (App.verify client username image1 image2) w =
        Return {| App.vr_authenticated := true; App.vr_token := token;
                  App.vr_role := Db.role row; App.vr_meta := meta |}) ∧
   stored (Some username) ip w' = {| fails := 0; locked_until := 0 |}) ∧
  ((d1 <=? App.MATCH_THRESHOLD)%float && (d2 <=? App.MATCH_THRESHOLD)%float
     && (App.MOTION_THRESHOLD <=? motion)%float = false →
   (∃ meta,
      outcome (App.verify client username image1 image2) w =
        Raise (HTTPException 401 (JDict (("authenticated", JBool false) :: meta)))) ∧
   auth_state w' = auth_state (exec (register_fail (Some username) ip) (checked w)) ∧
   fails (stored (Some username) ip w') = fails (stored (Some username) ip w) + 1).
Proof.
  cbn zeta. intros Hclear Hrow Hx1 Hx2 Hq1 Hq2 Hf1 Hf2 Hd1 Hd2.
  destruct (motion_heuristic_returns image1 image2
              (extract_embedding_nonempty _ _ Hx1) (extract_embedding_nonempty _ _ Hx2))
    as [motion Hm].
  exists motion. split; [exact Hm|].
  pose proof (verify_decision_run client username image1 image2 w row r1 r2 d1 d2 motion
                Hclear Hrow Hx1 Hx2 Hq1 Hq2 Hf1 Hf2 Hd1 Hd2 Hm) as Hrun.
  cbn zeta in Hrun. unfold outcome, exec. rewrite Hrun. clear Hrun.
  set (ok := (d1 <=? App.MATCH_THRESHOLD)%float && (d2 <=? App.MATCH_THRESHOLD)%float
             && (App.MOTION_THRESHOLD <=? motion)%float).
  assert (Hok : ok = true ↔
                (d1 <=? App.MATCH_THRESHOLD)%float = true ∧
                (d2 <=? App.MATCH_THRESHOLD)%float = true ∧
                (App.MOTION_THRESHOLD <=? motion)%float = true).
  { unfold ok. rewrite !andb_true_iff. tauto. }
  destruct ok.
  - split; [|split].
    + split; [intros _; apply Hok; reflexivity|intros _; eexists; reflexivity].
    + intros _. split; [eexists _, _; reflexivity|].
      apply (stored_insert _ _ (checked w)). reflexivity.
    + intros [=].
  - split; [|split].
    + split; [|intros Hall; apply Hok in Hall; discriminate].
      erewrite bind_return by (rewrite register_fail_run; reflexivity).
      cbn. intros [resp [=]].
    + intros [=].
    + intros _.
      erewrite bind_return by (rewrite register_fail_run; reflexivity).
      rewrite register_fail_run. cbn zeta. cbn beta iota.
      split; [eexists; reflexivity|]. split; [reflexivity|].
      erewrite stored_insert; [|reflexivity].
      reflexivity.
Qed.

End Verify.

(** "alice" enrolled from pixels (3, 4) and verified with the frames
    (3, 4) and (4, 3): both distances are under the threshold, the frames
    differ, and the answer is 200. *)
Lemma verify_authenticated_iff_witness :
  ∃ resp,
    outcome (App.verify (H := demo_env) (Some "10.0.0.7") "alice"
               [Byte.x03; Byte.x04] [Byte.x04; Byte.x03])
      (exec (App.enroll (H := demo_env) (Some "10.0.0.7") "alice" [Byte.x03; Byte.x04])
         init_db)
    = Return resp.
Proof.
  edestruct (verify_authenticated_iff (H := demo_env) (Some "10.0.0.7") "alice"
               [Byte.x03; Byte.x04] [Byte.x04; Byte.x03]
               (exec (App.enroll (H := demo_env) (Some "10.0.0.7") "alice"
                        [Byte.x03; Byte.x04]) init_db))
    as (motion & Hm & (_ & Hyes) & _ & _).
  - vm_compute. discriminate.
  - vm_compute. reflexivity.
  - vm_compute. reflexivity.
  - vm_compute. reflexivity.
  - reflexivity.
  - reflexivity.
  - reflexivity.
  - reflexivity.
  - vm_compute. reflexivity.
  - vm_compute. reflexivity.
  - apply Hyes. vm_compute in Hm. injection Hm as <-. vm_compute. repeat split.
Defined.

(** C4: when the key of a [/verify] request is locked, that is, its stored
    [locked_until] is later than the clock, the handler appends one
    [verify_locked] event and raises 429 with the remaining seconds in its
    detail. The lockout rows and the users are untouched, and the answer and
    the world are the same whatever the two images are and whatever the
    decoder, the quality measures, the face encoder and the signing key
    would have given: neither extraction nor a distance is computed. *)
Theorem verify_locked_short_circuit (E E' : Env) client username
    (image1 image2 image1' image2' : bytes) (w : World) :
  let ip := App._client_ip client in
  let state := stored (Some username) ip w in
  let now := clock (Env := E) (ticks w) in
  let remaining := locked_until state - now in
  let w' := exec (App.verify (H := E) client username image1 image2) w in
  (∀ n, clock (Env := E') n = clock (Env := E) n) →
  now < locked_until state →
  outcome (App.verify (H := E) client username image1 image2) w
    = Raise (HTTPException 429
               (JStr ("Locked out. Try again in " +:+ pretty remaining +:+ "s."))) ∧
  events w' = (events w ++
               [ {| ts := clock (Env := E) (S (ticks w)); event_type := "verify_locked";
                    ev_username := Some username; ev_ip := Some ip;
                    meta := [("fails", JInt (fails state));
                             ("seconds_remaining", JInt remaining)] |} ])%list ∧
  auth_state w' = auth_state w ∧
  users w' = users w ∧
  App.verify (H := E') client username image1' image2' w
    = App.verify (H := E) client username image1 image2 w.
Proof.
  cbn zeta. intros Hclock Hlocked.
  unfold outcome, exec.
  rewrite (verify_locked_run (H := E) client username image1 image2 w Hlocked).
  rewrite (verify_locked_run (H := E') client username image1' image2' w)
    by (rewrite Hclock; exact Hlocked).
  rewrite !Hclock. repeat apply conj; reflexivity.
Qed.

(** After five failures "alice" is locked at 10.0.0.7: the sixth request
    is answered 429 with 59 seconds to wait. *)
Lemma verify_locked_short_circuit_witness :
  outcome (App.verify (H := demo_env) (Some "10.0.0.7") "alice" [Byte.x03] [Byte.x04])
    (register_fail_times (H := demo_env) 5 (Some "alice") "10.0.0.7" init_db)
  = Raise (HTTPException 429 (JStr "Locked out. Try again in 59s.")).
Proof.
  edestruct (verify_locked_short_circuit demo_env blind_env (Some "10.0.0.7") "alice"
               [Byte.x03] [Byte.x04] [] []
               (register_fail_times (H := demo_env) 5 (Some "alice") "10.0.0.7" init_db))
    as (Hout & _).
  - intros n. reflexivity.
  - vm_compute. reflexivity.
  - rewrite Hout. vm_compute. reflexivity.
Defined.

(** ** The order of binary64 *)

Lemma SFcompare_rank x y :
  x ≠ S754_nan → y ≠ S754_nan →
  SFcompare x y = Some (lex_compare (sf_rank x) (sf_rank y)).
Proof.
  intros Hx Hy.
  destruct x as [sx|[]| |[] mx ex], y as [sy|[]| |[] my ey];
    try congruence; try reflexivity;
    try (destruct sx; reflexivity); try (destruct sy; reflexivity);
    unfold SFcompare, lex_compare, sf_rank; cbn [fst snd Z.compare Pos.compare].
  all: try reflexivity.
  destruct (Z.compare_spec ex ey), (Z.compare_spec (- ex) (- ey)); try lia;
    reflexivity.
Qed.

Lemma lex_compare_Lt a b : lex_compare a b = Lt ↔ lex_lt a b.
Proof.
  unfold lex_compare, lex_lt.
  destruct (Z.compare_spec a.1.1 b.1.1), (Z.compare_spec a.1.2 b.1.2),
    (Z.compare_spec a.2 b.2); split; intros; try discriminate; try lia; reflexivity.
Qed.

Lemma lex_compare_Gt a b : lex_compare a b = Gt ↔ lex_lt b a.
Proof.
  unfold lex_compare, lex_lt.
  destruct (Z.compare_spec a.1.1 b.1.1), (Z.compare_spec a.1.2 b.1.2),
    (Z.compare_spec a.2 b.2); split; intros; try discriminate; try lia; reflexivity.
Qed.

Lemma is_nan_false x : PrimFloat.is_nan x = false → Prim2SF x ≠ S754_nan.
Proof.
  unfold PrimFloat.is_nan. rewrite FloatAxioms.eqb_spec. intros E N.
  rewrite N in E. discriminate.
Qed.

Lemma ltb_rank x y :
  PrimFloat.is_nan x = false → PrimFloat.is_nan y = false →
  (PrimFloat.ltb x y = true ↔ lex_lt (rank x) (rank y)).
Proof.
  intros Hx%is_nan_false Hy%is_nan_false.
  rewrite FloatAxioms.ltb_spec. unfold SFltb. rewrite SFcompare_rank by assumption.
  rewrite <- lex_compare_Lt. unfold rank.
  destruct (lex_compare _ _); split; congruence.
Qed.

Lemma leb_rank x y :
  PrimFloat.is_nan x = false → PrimFloat.is_nan y = false →
  (PrimFloat.leb x y = true ↔ ¬ lex_lt (rank y) (rank x)).
Proof.
  intros Hx%is_nan_false Hy%is_nan_false.
  rewrite FloatAxioms.leb_spec. unfold SFleb. rewrite SFcompare_rank by assumption.
  rewrite <- lex_compare_Gt. unfold rank.
  destruct (lex_compare _ _); split; congruence.
Qed.

Lemma eqb_rank x y :
  PrimFloat.is_nan x = false → PrimFloat.is_nan y = false →
  (PrimFloat.eqb x y = true ↔ rank x = rank y).
Proof.
  intros Hx%is_nan_false Hy%is_nan_false.
  rewrite FloatAxioms.eqb_spec. unfold SFeqb. rewrite SFcompare_rank by assumption.
  unfold rank, lex_compare.
  destruct (sf_rank (Prim2SF x)) as [[a b] c], (sf_rank (Prim2SF y)) as [[a' b'] c'].
  cbn [fst snd].
  destruct (Z.compare_spec a a'), (Z.compare_spec b b'), (Z.compare_spec c c');
    split; intros E; try discriminate; try reflexivity;
    try (injection E; lia); subst; reflexivity.
Qed.

(** ** The stable sort of [/search] *)

Section ListSort.
Import App.
Context {A : Type} (key : A → float).
#[local] Abbreviation no_nan := (no_nan key).
#[local] Abbreviation key_le := (key_le key).
#[local] Abbreviation same_key := (same_key key).

Lemma key_le_trans a b c :
  no_nan [a; b; c] → key_le a b → key_le b c → key_le a c.
Proof.
  intros Hn. inversion_clear Hn as [|? ? Ha Hn']. inversion_clear Hn' as [|? ? Hb Hn''].
  inversion_clear Hn'' as [|? ? Hc _].
  unfold key_le. rewrite !leb_rank by assumption. unfold lex_lt. lia.
Qed.

Lemma insert_by_key_perm x l : Permutation (insert_by_key key x l) (x :: l).
Proof.
  induction l as [|y l IH]; cbn [insert_by_key]; [reflexivity|].
  destruct (key x <? key y)%float; [reflexivity|].
  rewrite IH. apply perm_swap.
Qed.

Lemma list_sort_acc_perm l acc :
  Permutation (fold_left (λ acc x, insert_by_key key x acc) l acc) (acc ++ l).
Proof.
  revert acc. induction l as [|x l IH]; intros acc; cbn [fold_left].
  - rewrite app_nil_r. reflexivity.
  - rewrite IH, insert_by_key_perm. apply Permutation_middle.
Qed.

Lemma list_sort_perm l : Permutation (list_sort key l) l.
Proof. unfold list_sort. apply (list_sort_acc_perm l []). Qed.

Lemma insert_by_key_sorted x l :
  PrimFloat.is_nan (key x) = false → no_nan l →
  StronglySorted key_le l → StronglySorted key_le (insert_by_key key x l).
Proof.
  intros Hx Hn Hs. induction Hs as [|y l Hs IH Hy]; cbn [insert_by_key].
  - repeat constructor.
  - inversion_clear Hn as [|? ? Hny Hnl].
    destruct (key x <? key y)%float eqn:E.
    + constructor; [constructor; assumption|].
      apply ltb_rank in E; [|assumption..].
      constructor.
      * unfold key_le. rewrite leb_rank by assumption. unfold lex_lt in *. lia.
      * rewrite Forall_forall in Hy, Hnl |- *. intros z Hz.
        specialize (Hy z Hz). specialize (Hnl z Hz).
        unfold key_le in *. rewrite leb_rank in Hy |- * by assumption.
        unfold lex_lt in *. lia.
    + constructor; [apply IH; assumption|].
      rewrite (insert_by_key_perm x l). constructor; [|assumption].
      unfold key_le. rewrite leb_rank by assumption.
      intros Hlt. apply ltb_rank in Hlt; [|assumption..]. congruence.
Qed.

Lemma list_sort_acc_sorted l acc :
  no_nan l → no_nan acc → StronglySorted key_le acc →
  StronglySorted key_le (fold_left (λ acc x, insert_by_key key x acc) l acc).
Proof.
  revert acc. induction l as [|x l IH]; intros acc Hl Hacc Hs; cbn [fold_left].
  - assumption.
  - inversion_clear Hl as [|? ? Hx Hl'].
    apply IH; [assumption| |apply insert_by_key_sorted; assumption].
    unfold no_nan. rewrite insert_by_key_perm. constructor; assumption.
Qed.

Lemma list_sort_sorted l : no_nan l → StronglySorted key_le (list_sort key l).
Proof.
  intros Hl. apply list_sort_acc_sorted; [assumption|constructor|constructor].
Qed.

Lemma insert_by_key_same_key d x l :
  PrimFloat.is_nan d = false → PrimFloat.is_nan (key x) = false → no_nan l →
  StronglySorted key_le l →
  List.filter (same_key d) (insert_by_key key x l) =
  (List.filter (same_key d) l ++ List.filter (same_key d) [x])%list.
Proof.
  intros Hd Hx Hn Hs. induction Hs as [|y l Hs IH Hy]; cbn [insert_by_key].
  - reflexivity.
  - inversion_clear Hn as [|? ? Hny Hnl].
    destruct (key x <? key y)%float eqn:E.
    + cbn [List.filter app]. destruct (same_key d x) eqn:Ex; [|rewrite app_nil_r; reflexivity].
      assert (Hnone : List.filter (same_key d) (y :: l) = []).
      { apply ltb_rank in E; [|assumption..].
        apply eqb_rank in Ex; [|assumption..].
        assert (Hall : Forall (λ z, same_key d z = false) (y :: l)).
        { constructor.
          - apply not_true_is_false. unfold same_key. rewrite eqb_rank by assumption.
            unfold lex_lt in E. intros Ey. rewrite <- Ex in Ey. rewrite Ey in E. lia.
          - rewrite Forall_forall in Hy, Hnl |- *. intros z Hz.
            specialize (Hy z Hz). specialize (Hnl z Hz).
            apply not_true_is_false. unfold same_key. rewrite eqb_rank by assumption.
            unfold key_le in Hy. rewrite leb_rank in Hy by assumption.
            unfold lex_lt in *. intros Ez. rewrite <- Ex in Ez. rewrite Ez in Hy. lia. }
        clear - Hall. induction Hall as [|z l' Hz _ IHl]; [reflexivity|].
        cbn [List.filter]. rewrite Hz. exact IHl. }
      cbn [List.filter] in Hnone. rewrite Hnone. reflexivity.
    + cbn [List.filter]. rewrite IH by assumption.
      destruct (same_key d y); reflexivity.
Qed.

Lemma list_sort_acc_stable d l acc :
  PrimFloat.is_nan d = false → no_nan l → no_nan acc → StronglySorted key_le acc →
  List.filter (same_key d) (fold_left (λ acc x, insert_by_key key x acc) l acc) =
  (List.filter (same_key d) acc ++ List.filter (same_key d) l)%list.
Proof.
  intros Hd. revert acc. induction l as [|x l IH]; intros acc Hl Hacc Hs; cbn [fold_left].
  - cbn [List.filter]. rewrite app_nil_r. reflexivity.
  - inversion_clear Hl as [|? ? Hx Hl'].
    rewrite IH; [|assumption| |apply insert_by_key_sorted; assumption].
    + rewrite insert_by_key_same_key by assumption.
      rewrite <- app_assoc. cbn [List.filter].
      destruct (same_key d x); reflexivity.
    + unfold no_nan. rewrite insert_by_key_perm. constructor; assumption.
Qed.

Lemma list_sort_stable d l :
  PrimFloat.is_nan d = false → no_nan l →
  List.filter (same_key d) (list_sort key l) = List.filter (same_key d) l.
Proof.
  intros Hd Hl. unfold list_sort.
  rewrite list_sort_acc_stable; [reflexivity|assumption..|constructor|constructor].
Qed.

End ListSort.

Section Search.
Context `{Env}.
Import App Recognition.

Lemma candidates_of_spec probe rows acc cands :
  candidates_of probe rows acc = Return cands →
  ∃ cs, cands = (acc ++ cs)%list ∧ Forall2 (candidate_for probe) rows cs.
Proof.
  revert acc. induction rows as [|u rows IH]; intros acc; cbn [candidates_of].
  - intros [= <-]. exists []. rewrite app_nil_r. split; [reflexivity|constructor].
  - destruct (cosine_distance probe (Db.embedding u)) as [dist|e] eqn:Hd; [|discriminate].
    intros Hrest. destruct (IH _ Hrest) as (cs & -> & Hcs).
    eexists (_ :: cs). rewrite <- app_assoc. split; [reflexivity|].
    constructor; [|exact Hcs]. repeat split. exact Hd.
Qed.

Lemma search_run client image top_k creds w user w1 r cands :
  Auth.get_current_user creds w = (Return user, w1) →
  extract_embedding image = Return r →
  quality_ok r = true →
  face_count r = 1 →
  candidates_of (embedding r) (users w) [] = Return cands →
  outcome (search client image top_k creds) w =
  Return {| sr_results := take (Z.to_nat (Z.max 1 (Z.min top_k 25)))
                            (list_sort distance cands);
            sr_match_threshold := MATCH_THRESHOLD |}.
Proof.
  intros Huser Hx Hq Hf Hc.
  assert (Hu : users w1 = users w).
  { pose proof (keeps_get_current_user users ltac:(reflexivity) creds w) as K.
    unfold exec in K. rewrite Huser in K. exact K. }
  unfold outcome, search.
  erewrite bind_return by exact Huser.
  rewrite Hx, Hq, Hf. cbn [negb Z.eqb Pos.eqb].
  erewrite bind_return by reflexivity.
  rewrite Hu, Hc.
  erewrite bind_return by reflexivity.
  erewrite bind_return by apply log_event_run.
  reflexivity.
Qed.

(** C5, as the code has it: [/search] computes the distance from the probe
    to every row of [users], sorts the candidates by distance with a stable
    sort, and returns the first [max(1, min(top_k, 25))] of them, or all of
    them when there are fewer. When no distance is NaN the result ascends
    by distance, and candidates of one distance stay in the order in which
    [list_users] gave their rows: the username takes no part. *)
Theorem search_ranks_by_distance client image top_k creds w user w1 r cands :
  let k := Z.max 1 (Z.min top_k 25) in
  Auth.get_current_user creds w = (Return user, w1) →
  extract_embedding image = Return r →
  quality_ok r = true →
  face_count r = 1 →
  candidates_of (embedding r) (users w) [] = Return cands →
  no_nan distance cands →
  ∃ resp,
    outcome (search client image top_k creds) w = Return resp ∧
    Forall2 (candidate_for (embedding r)) (users w) cands ∧
    sr_results resp = take (Z.to_nat k) (list_sort distance cands) ∧
    Permutation (list_sort distance cands) cands ∧
    StronglySorted (key_le distance) (sr_results resp) ∧
    (∀ d, PrimFloat.is_nan d = false →
          List.filter (same_key distance d) (list_sort distance cands)
          = List.filter (same_key distance d) cands) ∧
    Z.of_nat (length (sr_results resp)) = Z.min k (Z.of_nat (length (users w))).
Proof.
  cbn zeta. intros Huser Hx Hq Hf Hc Hn.
  eexists. split; [eapply search_run; eassumption|]. cbn [sr_results].
  destruct (candidates_of_spec _ _ _ _ Hc) as (cs & -> & Hcs). cbn [app] in *.
  split; [exact Hcs|]. split; [reflexivity|].
  split; [apply list_sort_perm|].
  split; [|split].
  - pose proof (list_sort_sorted distance cs Hn) as Hs.
    revert Hs. generalize (list_sort distance cs). generalize (Z.to_nat (Z.max 1 (Z.min top_k 25))).
    intros n l Hs. revert n. induction Hs as [|a l Hs IH Ha]; intros [|n]; cbn [take];
      try constructor.
    + apply IH.
    + clear - Ha. revert n. induction Ha as [|b l Hb Ha IH]; intros [|n]; cbn [take];
        constructor; [assumption|apply IH].
  - intros d Hd. apply list_sort_stable; assumption.
  - rewrite length_take, (Permutation_length (list_sort_perm distance cs)).
    rewrite (Forall2_length _ _ _ Hcs). lia.
Qed.

End Search.

(** Three users, a probe that is at distance 0 from two of them, and the
    default [top_k]: three results. *)
Lemma search_ranks_by_distance_witness :
  ∃ resp,
    outcome (App.search (H := demo_env) (Some "10.0.0.7") [Byte.x03; Byte.x04] 5 demo_creds)
      (enroll_all (H := demo_env)
         [("bob", [Byte.x03; Byte.x04]); ("alice", [Byte.x03; Byte.x04]);
          ("carol", [Byte.x04; Byte.x03])] init_db)
    = Return resp ∧
    Z.of_nat (length (App.sr_results resp)) = 3.
Proof.
  edestruct (search_ranks_by_distance (H := demo_env) (Some "10.0.0.7")
               [Byte.x03; Byte.x04] 5 demo_creds
               (enroll_all (H := demo_env)
                  [("bob", [Byte.x03; Byte.x04]); ("alice", [Byte.x03; Byte.x04]);
                   ("carol", [Byte.x04; Byte.x03])] init_db))
    as (resp & Hout & _ & _ & _ & _ & _ & Hlen).
  - vm_compute. reflexivity.
  - vm_compute. reflexivity.
  - reflexivity.
  - reflexivity.
  - vm_compute. reflexivity.
  - repeat constructor.
  - exists resp. split; [exact Hout|]. rewrite Hlen. vm_compute. reflexivity.
Defined.

(** "bob" was enrolled before "alice" and both are at distance 0 from the
    probe: "bob" is returned first, which the order by distance and then
    by username does not allow. *)
Lemma search_ties_keep_enrollment_order :
  outcome (App.search (H := demo_env) (Some "10.0.0.7") [Byte.x03; Byte.x04] 5 demo_creds)
    (enroll_all (H := demo_env)
       [("bob", [Byte.x03; Byte.x04]); ("alice", [Byte.x03; Byte.x04])] init_db)
  = Return {| App.sr_results :=
                [ {| App.c_username := "bob"; App.c_role := "user"; App.distance := 0%float |};
                  {| App.c_username := "alice"; App.c_role := "user"; App.distance := 0%float |} ];
              App.sr_match_threshold := App.MATCH_THRESHOLD |}
  ∧ sorted_by by_distance_then_username
      [ {| App.c_username := "bob"; App.c_role := "user"; App.distance := 0%float |};
        {| App.c_username := "alice"; App.c_role := "user"; App.distance := 0%float |} ]
    = false.
Proof. split; vm_compute; reflexivity. Qed.

(** Ten users and [top_k] 0, 3 and 100: 1, 3 and 10 results. *)
Example search_counts_of_ten :
  let w := enroll_all (H := demo_env)
             (map (λ b, (String (Ascii.ascii_of_byte b) "", [b; Byte.x01]))
                [Byte.x61; Byte.x62; Byte.x63; Byte.x64; Byte.x65;
                 Byte.x66; Byte.x67; Byte.x68; Byte.x69; Byte.x6a]) init_db in
  let count top_k :=
    match outcome (App.search (H := demo_env) (Some "10.0.0.7") [Byte.x61; Byte.x01]
                     top_k demo_creds) w with
    | Return resp => Some (length (App.sr_results resp))
    | Raise _ => None
    end in
  length (users w) = 10%nat ∧
  count 0 = Some 1%nat ∧ count 3 = Some 3%nat ∧ count 100 = Some 10%nat.
Proof. vm_compute. repeat split. Qed.

(** ** C6: bearer tokens *)

Section Tokens.
Context `{Env}.
Import Auth.

Lemma jwt_decode_issued (u r : string) (issued exp : Z) w :
  let payload := [("sub", JStr u); ("role", JStr r); ("iat", JInt issued); ("exp", JInt exp)] in
  (jwt_decode (jwt_encode payload SECRET_KEY ALGORITHM) SECRET_KEY [ALGORITHM]) w =
  if exp <? clock (ticks w)
  then (Raise (JWTError "Signature has expired."), with_ticks (S (ticks w)) w)
  else (Return payload, with_ticks (S (ticks w)) w).
Proof.
  cbn zeta. unfold jwt_decode, jwt_encode. cbn [alg claims signature].
  rewrite bool_decide_eq_true_2 by (apply list_elem_of_singleton; reflexivity).
  rewrite String.eqb_refl. cbn [negb].
  unfold _validate_iat, _validate_exp, _validate_sub.
  cbn [dict_get String.eqb Ascii.eqb Bool.eqb].
  unfold mbind, M_bind, time_time, mret, M_ret, raise.
  destruct (_ <? _); reflexivity.
Qed.

(** C6, as the code has it: the token that [create_access_token] makes for
    [u] and [r] carries [sub = u], [role = r], [iat = now] and
    [exp = now + TTL]. [decode_token] returns these claims as long as the
    clock has not passed [exp], the second [exp] itself included, and
    raises 401 once the clock is later than [exp], and for a string that is
    not a compact JWS, and for a signature that is not the HMAC of header
    and claims under the key. It writes to no table. *)
Theorem token_round_trip (u r : string) (w0 w : World) :
  let issued := clock (ticks w0) in
  let exp := issued + ACCESS_TOKEN_TTL_SECONDS in
  let payload := [("sub", JStr u); ("role", JStr r); ("iat", JInt issued); ("exp", JInt exp)] in
  let now := clock (ticks w) in
  let invalid := HTTPException 401 (JStr "Invalid or expired token") in
  ∃ token,
    outcome (create_access_token u r) w0 = Return token ∧
    (now ≤ exp → outcome (decode_token token) w = Return payload) ∧
    (exp < now → outcome (decode_token token) w = Raise invalid) ∧
    (∀ s, outcome (decode_token (Malformed s)) w = Raise invalid) ∧
    (∀ jws, signature jws ≠ hmac_sha256 SECRET_KEY (alg jws, claims jws) →
            outcome (decode_token (Compact jws)) w = Raise invalid) ∧
    (∀ t, keeps auth_state (decode_token t) ∧ keeps users (decode_token t) ∧
          keeps events (decode_token t)).
Proof.
  cbn zeta. eexists. split; [reflexivity|].
  repeat apply conj.
  - intros Hle. unfold outcome, decode_token. rewrite jwt_decode_issued.
    apply Z.ltb_ge in Hle. rewrite Hle. reflexivity.
  - intros Hlt. unfold outcome, decode_token. rewrite jwt_decode_issued.
    apply Z.ltb_lt in Hlt. rewrite Hlt. reflexivity.
  - intros s. reflexivity.
  - intros jws Hsig. unfold outcome, decode_token, jwt_decode.
    destruct (negb (bool_decide _)); [reflexivity|].
    apply String.eqb_neq in Hsig. rewrite Hsig. reflexivity.
  - intros t. repeat apply conj; apply keeps_decode_token; reflexivity.
Qed.

End Tokens.

(** A token made at 1000 for an hour and read at 2000. *)
Lemma token_round_trip_witness :
  outcome (Auth.decode_token (H := demo_env) demo_token) (with_ticks 1000 init_db)
  = Return [("sub", JStr "alice"); ("role", JStr "user");
            ("iat", JInt 1000); ("exp", JInt 4600)].
Proof.
  destruct (token_round_trip (H := demo_env) "alice" "user" init_db
              (with_ticks 1000 init_db))
    as (token & Hmade & Hgood & _).
  injection Hmade as <-.
  apply Hgood. vm_compute. discriminate.
Defined.

(** The token made at 1000 for an hour is read at 4600, its [exp]: the
    clock is not before [expires_at], and the claims are returned. *)
Lemma token_accepted_at_expiry :
  outcome (Auth.create_access_token (H := demo_env) "alice" "user") init_db
    = Return demo_token ∧
  clock (Env := demo_env) (ticks (with_ticks 3600 init_db)) = 4600 ∧
  outcome (Auth.decode_token (H := demo_env) demo_token) (with_ticks 3600 init_db)
    = Return [("sub", JStr "alice"); ("role", JStr "user");
              ("iat", JInt 1000); ("exp", JInt 4600)].
Proof. repeat apply conj; vm_compute; reflexivity. Qed.

(** ** Rounding to binary64, as SpecFloat defines it *)








Lemma Zdigits2_nonneg (m : Z) : 0 ≤ Zdigits2 m.
Proof. destruct m; cbn; lia. Qed.











(** ** Valid binary64 numbers and their order *)



(** ** The quotient of a smaller by a larger number *)




(** ** One minus a number between -1 and 1 *)




(** ** The range of [1 - d / D] in binary64 *)




(** ** A zero norm against a finite norm *)


(** ** Scaling by a power of two *)

Lemma shr_shift (r : shr_record) (e z n : Z) :
  shr r (e + n) z = ((shr r e z).1, (shr r e z).2 + n).
Proof. destruct z as [|p|p]; cbn [shr fst snd]; f_equal; lia. Qed.

Lemma shr_exponent (r : shr_record) (e z : Z) : e ≤ (shr r e z).2.
Proof. destruct z as [|p|p]; cbn [shr snd]; lia. Qed.

Lemma fexp_shift (x n : Z) :
  -1021 ≤ x → -1021 ≤ x + n → fexp prec emax (x + n) = fexp prec emax x + n.
Proof. unfold fexp, SpecFloat.emin, prec, emax. lia. Qed.

(** Away from the subnormal range and from overflow, rounding does the
    same to a value and to that value times a power of two. *)
Lemma binary_round_aux_shift (s : bool) (M E : Z) (l : location) (n : Z)
    (s' : bool) (m' : positive) (e' : Z) :
  -1021 ≤ E → -1021 ≤ E + n → e' + n ≤ 971 →
  binary_round_aux prec emax s M E l = S754_finite s' m' e' →
  binary_round_aux prec emax s M (E + n) l = S754_finite s' m' (e' + n).
Proof.
  intros HE HEn He'. unfold binary_round_aux, shr_fexp.
  pose proof (Zdigits2_nonneg M) as HD.
  replace (fexp prec emax (Zdigits2 M + (E + n)) - (E + n))
    with (fexp prec emax (Zdigits2 M + E) - E)
    by (replace (Zdigits2 M + (E + n)) with (Zdigits2 M + E + n) by lia;
        rewrite (fexp_shift (Zdigits2 M + E) n) by lia; lia).
  rewrite shr_shift.
  pose proof (shr_exponent (shr_record_of_loc M l) E (fexp prec emax (Zdigits2 M + E) - E))
    as He1.
  destruct (shr (shr_record_of_loc M l) E _) as [r1 e1]. cbn [fst snd] in *.
  set (m1 := round_nearest_even (shr_m r1) (loc_of_shr_record r1)).
  pose proof (Zdigits2_nonneg m1) as HD1.
  replace (fexp prec emax (Zdigits2 m1 + (e1 + n)) - (e1 + n))
    with (fexp prec emax (Zdigits2 m1 + e1) - e1)
    by (replace (Zdigits2 m1 + (e1 + n)) with (Zdigits2 m1 + e1 + n) by lia;
        rewrite (fexp_shift (Zdigits2 m1 + e1) n) by lia; lia).
  rewrite shr_shift.
  destruct (shr (shr_record_of_loc m1 loc_Exact) e1 _) as [r2 e2]. cbn [fst snd].
  destruct (shr_m r2) as [|p|p]; try discriminate.
  destruct (e2 <=? emax - prec) eqn:Hb; [|discriminate].
  intros [= <- <- <-].
  replace (e2 + n <=? emax - prec) with true
    by (symmetry; apply Z.leb_le; unfold emax, prec; lia).
  reflexivity.
Qed.








Lemma SFmul_shift_r (sx : bool) (mx : positive) (ex : Z) (sy : bool) (my : positive) (ey n : Z)
    (s' : bool) (m' : positive) (e' : Z) :
  -1021 ≤ ex + ey → -1021 ≤ ex + ey + n → e' + n ≤ 971 →
  SFmul prec emax (S754_finite sx mx ex) (S754_finite sy my ey) = S754_finite s' m' e' →
  SFmul prec emax (S754_finite sx mx ex) (S754_finite sy my (ey + n))
  = S754_finite s' m' (e' + n).
Proof.
  intros H1 H2 H3 Hm. cbn [SFmul] in *.
  replace (ex + (ey + n)) with (ex + ey + n) by lia.
  apply binary_round_aux_shift; assumption.
Qed.



(** ** Numbers in the middle of the binary64 range *)









(** ** C7 and C8: the cosine distance in binary64 *)

Section Distance.
Import Recognition.
Context `{Env}.





End Distance.







(** ** C9: who changes a row of [users] *)

Section Enrollment.
Context `{Env}.
Import App Recognition.

Lemma find_upsert_rows_same u emb r now rows row :
  find (λ x, String.eqb (Db.username x) u) rows = Some row →
  find (λ x, String.eqb (Db.username x) u) (upsert_rows u emb r now rows)
  = Some {| Db.username := Db.username row; Db.embedding := emb;
            Db.role := Db.role row; Db.created_at := Db.created_at row |}.
Proof.
  induction rows as [|x rows IH]; cbn [find upsert_rows]; [discriminate|].
  destruct (String.eqb (Db.username x) u) eqn:E.
  - intros [= <-]. cbn [find Db.username]. rewrite E. reflexivity.
  - intros Hrest. cbn [find]. rewrite E. apply IH, Hrest.
Qed.

Lemma find_upsert_rows_other u u' emb r now rows :
  u' ≠ u →
  find (λ x, String.eqb (Db.username x) u') (upsert_rows u emb r now rows)
  = find (λ x, String.eqb (Db.username x) u') rows.
Proof.
  intros Hne. induction rows as [|x rows IH]; cbn [find upsert_rows].
  - cbn [Db.username]. rewrite (proj2 (String.eqb_neq u u')) by congruence. reflexivity.
  - destruct (String.eqb (Db.username x) u) eqn:E.
    + cbn [find Db.username]. apply String.eqb_eq in E. rewrite E.
      rewrite (proj2 (String.eqb_neq u u')) by congruence. reflexivity.
    + cbn [find]. rewrite IH. reflexivity.
Qed.

Lemma length_upsert_rows_same u emb r now rows row :
  find (λ x, String.eqb (Db.username x) u) rows = Some row →
  length (upsert_rows u emb r now rows) = length rows.
Proof.
  induction rows as [|x rows IH]; cbn [find upsert_rows]; [discriminate|].
  destruct (String.eqb (Db.username x) u); [reflexivity|].
  intros Hrest. cbn [length]. rewrite IH by exact Hrest. reflexivity.
Qed.

Lemma enroll_run client username image w res :
  extract_embedding image = Return res →
  quality_ok res = true →
  face_count res = 1 →
  enroll client username image w =
  (Return (JDict [("ok", JBool true); ("username", JStr username); ("role", JStr "user")]),
   with_events
     (events w ++ [ {| ts := clock (S (ticks w)); event_type := "enroll_success";
                      ev_username := Some username; ev_ip := Some (_client_ip client);
                      meta := [("note", JStr "user embedding stored")] |} ])
     (with_users (upsert_rows username (embedding res) "user" (clock (ticks w)) (users w))
        (with_ticks (S (S (ticks w))) w))).
Proof.
  intros Hx Hq Hf. unfold enroll. rewrite Hx, Hq, Hf. reflexivity.
Qed.

(** C9: enrolling a username that has a row replaces the embedding of
    that row and leaves its role and its creation time as they were,
    though the call passes the role "user" and the answer says "user"; the
    rows of the other usernames are as before. Of the handlers, only
    [/enroll] and [/admin/set-role] write to [users]: [/verify],
    [/search], [/me] and [/admin/events] leave every row as it was, and so
    do the three functions of security.py. *)
Theorem reenroll_keeps_role client username image w res row :
  let w' := exec (enroll client username image) w in
  extract_embedding image = Return res →
  quality_ok res = true →
  face_count res = 1 →
  outcome (get_user username) w = Return (Some row) →
  outcome (enroll client username image) w
    = Return (JDict [("ok", JBool true); ("username", JStr username);
                     ("role", JStr "user")]) ∧
  outcome (get_user username) w'
    = Return (Some {| Db.username := Db.username row;
                      Db.embedding := embedding res;
                      Db.role := Db.role row;
                      Db.created_at := Db.created_at row |}) ∧
  length (users w') = length (users w) ∧
  (∀ u', u' ≠ username → outcome (get_user u') w' = outcome (get_user u') w) ∧
  (∀ client' u image1 image2, keeps users (verify client' u image1 image2)) ∧
  (∀ client' image' top_k creds, keeps users (search client' image' top_k creds)) ∧
  (∀ creds, keeps users (me creds)) ∧
  (∀ limit creds, keeps users (admin_events limit creds)) ∧
  (∀ u ip, keeps users (check_lockout u ip) ∧ keeps users (register_fail u ip) ∧
           keeps users (register_success u ip)).
Proof.
  cbn zeta. intros Hx Hq Hf Hrow.
  unfold outcome, exec. rewrite (enroll_run client username image w res Hx Hq Hf).
  unfold get_user in *. cbn [fst snd users with_events with_users] in *.
  injection Hrow as Hrow.
  repeat apply conj.
  - reflexivity.
  - rewrite (find_upsert_rows_same _ _ _ _ _ _ Hrow). reflexivity.
  - apply (length_upsert_rows_same _ _ _ _ _ _ Hrow).
  - intros u' Hne. rewrite find_upsert_rows_other by exact Hne. reflexivity.
  - intros. apply verify_keeps_users.
  - intros. apply search_keeps_users.
  - intros. apply me_keeps_users.
  - intros. apply admin_events_keeps_users.
  - intros u ip. repeat apply conj;
      [apply keeps_check_lockout | apply keeps_register_fail
      | apply keeps_register_success]; reflexivity.
Qed.

End Enrollment.

(** "alice" is an admin and enrolls again from other pixels: the new
    embedding is stored, the answer says "user", the row says "admin". *)
Lemma reenroll_keeps_role_witness :
  outcome (Db.get_user "alice")
    (exec (App.enroll (H := demo_env) (Some "10.0.0.7") "alice" [Byte.x04; Byte.x03])
       alice_admin)
  = Return (Some {| Db.username := "alice"; Db.embedding := [4%float; 3%float];
                    Db.role := "admin"; Db.created_at := 1000 |}).
Proof.
  edestruct (reenroll_keeps_role (H := demo_env) (Some "10.0.0.7") "alice"
               [Byte.x04; Byte.x03] alice_admin) as (_ & Hrow & _).
  - vm_compute. reflexivity.
  - reflexivity.
  - reflexivity.
  - vm_compute. reflexivity.
  - rewrite Hrow. vm_compute. reflexivity.
Defined.

(** ** C2: calls of register_fail that overlap *)

Section Overlap.
Context `{Env}.
Import Interleave.

Lemma step_start_run username ip w :
  step username ip Start w = (Return (Loaded (stored username ip w)), w).
Proof.
  unfold step, mbind, M_bind, get_state, stored. cbn.
  destruct (auth_state w !! _key username ip); reflexivity.
Qed.

Lemma step_loaded_run username ip state w :
  step username ip (Loaded state) w =
  let now := clock (ticks w) in
  let n := fails state + 1 in
  let until := if MAX_FAILS <=? n then now + LOCKOUT_SECONDS else locked_until state in
  (Return (Done (n, MAX_FAILS <=? n, until)),
   with_auth_state
     (<[_key username ip := {| fails := n; locked_until := until |}]> (auth_state w))
     (with_ticks (S (ticks w)) w)).
Proof.
  unfold step, mbind, M_bind, set_state, time_time. cbn.
  destruct (MAX_FAILS <=? _); reflexivity.
Qed.

(** The two transactions of one call, run with nothing between them, are
    [register_fail]. *)
Lemma step_step_register_fail username ip w :
  (c ← step username ip Start; step username ip c) w =
  match register_fail username ip w with
  | (Return r, w') => (Return (Done r), w')
  | (Raise e, w') => (Raise e, w')
  end.
Proof.
  erewrite bind_return by apply step_start_run.
  rewrite step_loaded_run, register_fail_run. reflexivity.
Qed.

Lemma run_serial username ip n : ∀ first calls w,
  (∀ i, (first ≤ i < first + n)%nat → calls !! i = Some Start) →
  let r := run username ip (serial first n) calls w in
  r.2 = register_fail_times n username ip w ∧
  length r.1 = length calls ∧
  (∀ i, (first ≤ i < first + n)%nat → ∃ res, r.1 !! i = Some (Done res)) ∧
  (∀ i, ¬ (first ≤ i < first + n)%nat → r.1 !! i = calls !! i).
Proof.
  induction n as [|n IH]; intros first calls w Hstart.
  - cbn. repeat apply conj; [reflexivity|reflexivity|lia|reflexivity].
  - assert (Hfirst : calls !! first = Some Start) by (apply Hstart; lia).
    assert (Hlen : (first < length calls)%nat) by (eapply lookup_lt_Some; exact Hfirst).
    unfold serial. cbn [seq flat_map app]. fold (serial (S first) n).
    cbn [run]. rewrite Hfirst, step_start_run. cbn [run].
    rewrite list_lookup_insert_eq by exact Hlen.
    rewrite step_loaded_run. cbn zeta. cbn beta iota.
    rewrite list_insert_insert_eq.
    set (done := Done _). set (w1 := with_auth_state _ _).
    assert (Hw1 : w1 = exec (register_fail username ip) w).
    { unfold exec. rewrite register_fail_run. reflexivity. }
    specialize (IH (S first) (<[first := done]> calls) w1).
    destruct IH as (Hw & Hl & Hdone & Hrest).
    { intros i Hi. rewrite list_lookup_insert_ne by lia. apply Hstart. lia. }
    cbn zeta. repeat apply conj.
    + rewrite Hw, Hw1. reflexivity.
    + rewrite Hl. apply length_insert.
    + intros i Hi. destruct (decide (i = first)) as [->|Hne].
      * rewrite Hrest by lia. rewrite list_lookup_insert_eq by exact Hlen.
        eexists. reflexivity.
      * apply Hdone. lia.
    + intros i Hi. rewrite Hrest by lia. apply list_lookup_insert_ne. lia.
Qed.

(** C2, as the code has it: when [n] calls of [register_fail] for one key
    run one after the other, each with its two transactions together, no
    update is lost: every call finishes, the stored count is the count
    before plus [n], and the lock is the one the last call set when the
    count has reached [MAX_FAILS], else as before. The code puts nothing
    between the two transactions of a call that would keep another call
    out. *)
Theorem serial_register_fail_loses_nothing (n : nat) username ip w :
  let before := stored username ip w in
  let r := run username ip (serial 0 n) (replicate n Start) w in
  all_done r.1 = true ∧
  length r.1 = n ∧
  r.2 = register_fail_times n username ip w ∧
  fails (stored username ip r.2) = fails before + Z.of_nat n ∧
  locked_until (stored username ip r.2) =
    match n with
    | O => locked_until before
    | S m => if MAX_FAILS <=? fails before + Z.of_nat n
             then clock (ticks w + m) + LOCKOUT_SECONDS
             else locked_until before
    end.
Proof.
  cbn zeta.
  destruct (run_serial username ip n 0 (replicate n Start) w) as (Hw & Hl & Hdone & _).
  { intros i Hi. apply lookup_replicate_2. lia. }
  rewrite length_replicate in Hl.
  destruct (register_fail_times_stored n username ip w) as (_ & Hf & Hu).
  rewrite Hw. cbn zeta in Hf, Hu. repeat apply conj;
    [|exact Hl|reflexivity|exact Hf|exact Hu].
  unfold all_done. apply forallb_forall. intros c Hc.
  apply list_elem_of_In, list_elem_of_lookup in Hc. destruct Hc as [i Hi].
  assert (Hlt : (i < n)%nat) by (rewrite <- Hl; eapply lookup_lt_Some; exact Hi).
  destruct (Hdone i ltac:(lia)) as [res Hres]. rewrite Hres in Hi.
  injection Hi as <-. reflexivity.
Qed.

End Overlap.

(** Two calls for a key without a row, the first transaction of both
    before the second of either: both read the count 0, both store the
    count 1. Both calls have finished and one failure is recorded, not
    two. With five such calls the count is 1 and the key is not locked. *)
Lemma overlapping_register_fail_loses_update :
  let r := Interleave.run (H := demo_env) (Some "alice") "10.0.0.7" [0; 1; 0; 1]%nat
             [Interleave.Start; Interleave.Start] init_db in
  Interleave.all_done r.1 = true ∧
  fails (stored (Some "alice") "10.0.0.7" r.2) = 1 ∧
  fails (stored (Some "alice") "10.0.0.7" init_db) + 2 = 2 ∧
  let r5 := Interleave.run (H := demo_env) (Some "alice") "10.0.0.7"
              [0; 1; 2; 3; 4; 0; 1; 2; 3; 4]%nat
              (replicate 5 Interleave.Start) init_db in
  Interleave.all_done r5.1 = true ∧
  stored (Some "alice") "10.0.0.7" r5.2 = {| fails := 1; locked_until := 0 |}.
Proof. repeat apply conj; vm_compute; reflexivity. Qed.

(** * Further properties *)

(** ** Properties that every request preserves *)

Section Preserves.
Context `{Env} (P : World → Prop).

Lemma preserves_mret {A} (a : A) : preserves P (mret a).
Proof. intros w Hw. exact Hw. Qed.

Lemma preserves_raise {A} (e : Exc) : preserves P (raise e : M A).
Proof. intros w Hw. exact Hw. Qed.

Lemma preserves_bind {A C} (m : M A) (k : A → M C) :
  preserves P m → (∀ a, preserves P (k a)) → preserves P (m ≫= k).
Proof.
  intros Hm Hk w Hw. unfold exec, mbind, M_bind.
  specialize (Hm w Hw). unfold exec in Hm.
  destruct (m w) as [[a|e] w1]; cbn [snd] in *.
  - apply Hk, Hm.
  - exact Hm.
Qed.

Lemma preserves_call {A} (r : Result A) : preserves P (App.call r).
Proof. destruct r; intros w Hw; exact Hw. Qed.

Context (HP : stable P).

Lemma keeps_preserves {A} (m : M A) : keeps tables m → preserves P m.
Proof. intros Hk w Hw. eapply (st_tables P HP); [|exact Hw]. symmetry. apply Hk. Qed.

Lemma preserves_log_event event_type username ip meta :
  preserves P (log_event event_type username ip meta).
Proof.
  intros w Hw. unfold exec. rewrite log_event_run. cbn [snd].
  apply (st_tables P HP (with_events (events w ++ [ {| ts := clock (ticks w);
           event_type := event_type; ev_username := username; ev_ip := ip;
           meta := meta |} ]) w)); [reflexivity|].
  apply (st_log P HP), Hw.
Qed.

Lemma preserves_upsert_user username embedding :
  preserves P (upsert_user username embedding "user").
Proof.
  intros w Hw. unfold exec, upsert_user, mbind, M_bind, time_time. cbn [snd].
  apply (st_tables P HP
           (with_users (upsert_rows username embedding "user" (clock (ticks w)) (users w)) w));
    [reflexivity|].
  apply (st_upsert P HP), Hw.
Qed.

Lemma preserves_set_user_role username role :
  role ∈ App.ALLOWED_ROLES → preserves P (set_user_role username role).
Proof. intros Hr w Hw. unfold exec, set_user_role. cbn [snd]. apply (st_set_role P HP); assumption. Qed.

End Preserves.

(** One step of an invariant proof: a reader, a writer, or a case of the
    code. *)
Ltac preserves_step HP :=
  first
    [ apply preserves_mret
    | apply preserves_raise
    | apply preserves_call
    | apply (preserves_log_event _ HP)
    | apply (preserves_upsert_user _ HP)
    | apply (st_fail _ HP)
    | apply (st_success _ HP)
    | apply (keeps_preserves _ HP);
      first [ apply keeps_get_user | apply keeps_list_users | apply keeps_list_events
            | apply keeps_check_lockout; reflexivity
            | apply keeps_get_current_user; reflexivity
            | apply keeps_require_role; reflexivity
            | apply keeps_create_access_token; reflexivity ]
    | apply preserves_bind; [|intros ?]
    | match goal with
      | |- preserves _ (match ?x with _ => _ end) => destruct x
      | |- preserves _ (let '(_, _) := ?x in _) => destruct x
      end ].

Section ServePreserves.
Context `{Env} (P : World → Prop) (HP : stable P).

Lemma enroll_preserves client username image :
  preserves P (App.enroll client username image).
Proof. unfold App.enroll. repeat preserves_step HP. Qed.

Lemma verify_preserves client username image1 image2 :
  preserves P (App.verify client username image1 image2).
Proof. unfold App.verify. repeat preserves_step HP. Qed.

Lemma search_preserves client image top_k creds :
  preserves P (App.search client image top_k creds).
Proof. unfold App.search. repeat preserves_step HP. Qed.

Lemma admin_set_role_preserves username role client creds :
  preserves P (App.admin_set_role username role client creds).
Proof.
  unfold App.admin_set_role. preserves_step HP; [preserves_step HP|].
  destruct (bool_decide (_ ∈ _)) eqn:Hr; cbn [negb]; [|apply preserves_raise].
  apply bool_decide_eq_true in Hr.
  apply preserves_bind; [apply (preserves_set_user_role _ HP), Hr|].
  intros ok. repeat preserves_step HP.
Qed.

Lemma serve_preserves r w : P w → P (serve r w).
Proof.
  destruct r; cbn [serve].
  - apply (keeps_preserves _ HP). apply keeps_get_current_user. reflexivity.
  - apply enroll_preserves.
  - apply verify_preserves.
  - apply search_preserves.
  - apply admin_set_role_preserves.
  - unfold App.admin_events. repeat preserves_step HP.
Qed.

Lemma serve_all_preserves rs w : P w → P (serve_all rs w).
Proof.
  revert w. induction rs as [|r rs IH]; intros w Hw; cbn; [exact Hw|].
  apply IH, serve_preserves, Hw.
Qed.

End ServePreserves.

(** ** Invariants of the tables *)

Section Invariants.
Context `{Env}.

Lemma users_register_fail u ip w : users (exec (register_fail u ip) w) = users w.
Proof. apply (keeps_register_fail users); reflexivity. Qed.

Lemma events_register_fail u ip w : events (exec (register_fail u ip) w) = events w.
Proof. apply (keeps_register_fail events); reflexivity. Qed.

Lemma username_upsert_rows u emb r now rows :
  map Db.username (upsert_rows u emb r now rows)
  = (map Db.username rows
     ++ if bool_decide (u ∈ map Db.username rows) then [] else [u])%list.
Proof.
  induction rows as [|row rows IH]; cbn [upsert_rows map].
  - rewrite bool_decide_eq_false_2 by apply not_elem_of_nil. reflexivity.
  - destruct (String.eqb (Db.username row) u) eqn:E.
    + apply String.eqb_eq in E. cbn [map Db.username].
      rewrite bool_decide_eq_true_2 by (rewrite E; apply list_elem_of_here).
      rewrite app_nil_r. reflexivity.
    + apply String.eqb_neq in E. cbn [map]. rewrite IH. cbn [app]. f_equal. f_equal.
      rewrite (bool_decide_ext (u ∈ Db.username row :: map Db.username rows)
                 (u ∈ map Db.username rows)); [reflexivity|].
      rewrite elem_of_cons. intuition congruence.
Qed.

Lemma username_set_role_row u r rows :
  map Db.username (map (set_role_row u r) rows) = map Db.username rows.
Proof.
  induction rows as [|row rows IH]; [reflexivity|]. cbn [map]. rewrite IH. f_equal.
  unfold set_role_row. destruct (String.eqb _ _); reflexivity.
Qed.

Lemma unique_usernames_stable : stable unique_usernames.
Proof.
  split.
  - intros w w' [= _ Hu _]. unfold unique_usernames. rewrite Hu. trivial.
  - intros e w Hw. exact Hw.
  - intros u emb now w Hw. unfold unique_usernames in *. cbn [users with_users].
    rewrite username_upsert_rows. case_bool_decide as Hin.
    + rewrite app_nil_r. exact Hw.
    + apply NoDup_app. split; [exact Hw|]. split; [|apply NoDup_singleton].
      intros x Hx Hx'. apply list_elem_of_singleton in Hx'. subst x. contradiction.
  - intros u r w _ Hw. unfold unique_usernames in *. cbn [users with_users].
    rewrite username_set_role_row. exact Hw.
  - intros u ip w Hw. unfold unique_usernames. rewrite users_register_fail. exact Hw.
  - intros u ip w Hw. exact Hw.
Qed.

Lemma role_upsert_rows u emb now rows :
  Forall (λ row, Db.role row ∈ App.ALLOWED_ROLES) rows →
  Forall (λ row, Db.role row ∈ App.ALLOWED_ROLES) (upsert_rows u emb "user" now rows).
Proof.
  induction 1 as [|row rows Hrow Hrows IH]; cbn [upsert_rows].
  - constructor; [|constructor]. cbn. apply list_elem_of_here.
  - destruct (String.eqb _ _); constructor; assumption.
Qed.

Lemma roles_allowed_stable : stable roles_allowed.
Proof.
  split.
  - intros w w' [= _ Hu _]. unfold roles_allowed. rewrite Hu. trivial.
  - intros e w Hw. exact Hw.
  - intros u emb now w Hw. apply role_upsert_rows, Hw.
  - intros u r w Hr Hw. unfold roles_allowed in *. cbn [users with_users].
    apply Forall_map. eapply Forall_impl; [exact Hw|].
    intros row Hrow. unfold set_role_row. destruct (String.eqb _ _); assumption.
  - intros u ip w Hw. unfold roles_allowed. rewrite users_register_fail. exact Hw.
  - intros u ip w Hw. exact Hw.
Qed.

Lemma lockout_consistent_insert key state w w' :
  auth_state w' = <[key := state]> (auth_state w) →
  0 ≤ fails state → (fails state < MAX_FAILS → locked_until state = 0) →
  lockout_consistent w → lockout_consistent w'.
Proof.
  intros Hw' Hf Hl Hw k st. rewrite Hw', lookup_insert. case_decide as Hk.
  - intros [= <-]. split; assumption.
  - apply Hw.
Qed.

Lemma stored_consistent u ip w :
  lockout_consistent w →
  0 ≤ fails (stored u ip w) ∧
  (fails (stored u ip w) < MAX_FAILS → locked_until (stored u ip w) = 0).
Proof.
  intros Hw. unfold stored.
  destruct (auth_state w !! _key u ip) as [st|] eqn:E; [apply (Hw _ _ E)|].
  cbn. split; [lia|reflexivity].
Qed.

Lemma lockout_consistent_stable : stable lockout_consistent.
Proof.
  split.
  - intros w w' [= Ha _ _]. unfold lockout_consistent. rewrite Ha. trivial.
  - intros e w Hw. exact Hw.
  - intros u emb now w Hw. exact Hw.
  - intros u r w _ Hw. exact Hw.
  - intros u ip w Hw. destruct (stored_consistent u ip w Hw) as [Hf Hl].
    unfold exec. rewrite register_fail_run. cbn zeta. cbn [snd].
    eapply lockout_consistent_insert; [reflexivity| | |exact Hw]; cbn [fails locked_until].
    + lia.
    + intros Hlt. destruct (Z.leb_spec MAX_FAILS (fails (stored u ip w) + 1)); [lia|].
      apply Hl. lia.
  - intros u ip w Hw. unfold exec. rewrite register_success_run. cbn [snd].
    eapply lockout_consistent_insert; [reflexivity| | |exact Hw]; cbn; [lia|reflexivity].
Qed.

Lemma events_prefix_stable (l : list EventRow) : stable (λ w, l `prefix_of` events w).
Proof.
  split.
  - intros w w' [= _ _ He]. rewrite He. trivial.
  - intros e w Hw. cbn [events with_events]. apply prefix_app_r, Hw.
  - intros u emb now w Hw. exact Hw.
  - intros u r w _ Hw. exact Hw.
  - intros u ip w Hw. rewrite events_register_fail. exact Hw.
  - intros u ip w Hw. exact Hw.
Qed.

End Invariants.

(** X1: in every world that a sequence of requests leads to from a new
    database, no two rows of [users] have the same username. *)
Theorem reachable_usernames_unique `{Env} (rs : list Request) :
  unique_usernames (serve_all rs init_db).
Proof.
  apply (serve_all_preserves _ unique_usernames_stable). constructor.
Qed.

(** X2: in every world that a sequence of requests leads to from a new
    database, the role of every row of [users] is "user", "admin" or
    "analyst". *)
Theorem reachable_roles_allowed `{Env} (rs : list Request) :
  Forall (λ row, Db.role row = "user" ∨ Db.role row = "admin" ∨ Db.role row = "analyst")
    (users (serve_all rs init_db)).
Proof.
  assert (Hr : roles_allowed (serve_all rs init_db)).
  { apply (serve_all_preserves _ roles_allowed_stable). constructor. }
  eapply Forall_impl; [exact Hr|]. intros row Hrow. cbn beta in Hrow.
  unfold App.ALLOWED_ROLES in Hrow.
  rewrite !elem_of_cons in Hrow. rewrite elem_of_nil in Hrow. tauto.
Qed.

(** X3: the audit log only grows: whatever a request does and however it
    ends, the events recorded before it are still there, in their order, at
    the front of the log; and so after any sequence of requests. *)
Theorem events_append_only `{Env} (rs : list Request) (w : World) :
  events w `prefix_of` events (serve_all rs w).
Proof.
  apply (serve_all_preserves _ (events_prefix_stable (events w))). reflexivity.
Qed.

(** X4: in every world that requests lead to from a new database, a key
    is locked only after [MAX_FAILS] failures: when the clock is never
    negative and [check_lockout] answers locked, the count it reports is 5
    or more and the remaining seconds are above 0. *)
Theorem reachable_lock_needs_max_fails `{Env} (rs : list Request) username ip
    (fails remaining : Z) :
  (∀ n, 0 ≤ clock n) →
  outcome (check_lockout username ip) (serve_all rs init_db)
    = Return (true, fails, remaining) →
  MAX_FAILS ≤ fails ∧ 0 < remaining.
Proof.
  intros Hclock. unfold outcome. rewrite check_lockout_run. cbn zeta. cbn [fst].
  assert (Hc : lockout_consistent (serve_all rs init_db)).
  { apply (serve_all_preserves _ lockout_consistent_stable).
    intros key state Hk. unfold init_db in Hk. cbn [auth_state] in Hk.
    rewrite lookup_empty in Hk. discriminate. }
  destruct (stored_consistent username ip _ Hc) as [Hf Hl].
  destruct (Z.ltb_spec (clock (ticks (serve_all rs init_db)))
              (locked_until (stored username ip (serve_all rs init_db)))) as [Hlt|Hge];
    [|discriminate].
  intros [= <- <-]. split; [|lia].
  destruct (Z.lt_ge_cases (Db.fails (stored username ip (serve_all rs init_db))) MAX_FAILS)
    as [Hsmall|Hbig]; [|lia].
  specialize (Hl Hsmall). specialize (Hclock (ticks (serve_all rs init_db))). lia.
Qed.

(** After an enrolment and five attempts with another face, the row of
    "alice" is locked with a count of 5. *)
Lemma reachable_lock_needs_max_fails_witness :
  (MAX_FAILS ≤ 5 ∧ 0 < 58)%Z.
Proof.
  apply (reachable_lock_needs_max_fails (H := demo_env)
           (PostEnroll (Some "10.0.0.7") "alice" [Byte.x03; Byte.x04]
            :: repeat (PostVerify (Some "10.0.0.7") "alice"
                         [Byte.x04; Byte.x00] [Byte.x04; Byte.x00]) 5)
           (Some "alice") "10.0.0.7" 5 58).
  - intros n. cbn [clock demo_env]. lia.
  - vm_compute. reflexivity.
Defined.

(** ** The accessors of db.py *)

Section DbProps.
Context `{Env}.

Lemma find_username_app u rows row' :
  find (λ x, String.eqb (Db.username x) u) rows = None →
  find (λ x, String.eqb (Db.username x) u) (rows ++ [row'])
  = if String.eqb (Db.username row') u then Some row' else None.
Proof.
  induction rows as [|x rows IH]; cbn [find app]; [reflexivity|].
  destruct (String.eqb (Db.username x) u); [discriminate|]. exact IH.
Qed.

Lemma find_username_app_found u rows rows' row :
  find (λ x, String.eqb (Db.username x) u) rows = Some row →
  find (λ x, String.eqb (Db.username x) u) (rows ++ rows') = Some row.
Proof.
  induction rows as [|x rows IH]; cbn [find app]; [discriminate|].
  destruct (String.eqb (Db.username x) u); [trivial|exact IH].
Qed.

Lemma upsert_rows_new u emb r now rows :
  find (λ x, String.eqb (Db.username x) u) rows = None →
  upsert_rows u emb r now rows
  = (rows ++ [ {| Db.username := u; Db.embedding := emb; Db.role := r;
                  Db.created_at := now |} ])%list.
Proof.
  induction rows as [|x rows IH]; cbn [find upsert_rows app]; [reflexivity|].
  destruct (String.eqb (Db.username x) u); [discriminate|].
  intros Hrest. rewrite IH by exact Hrest. reflexivity.
Qed.

Lemma find_set_role_row_same u r rows :
  find (λ x, String.eqb (Db.username x) u) (map (set_role_row u r) rows)
  = (λ row, {| Db.username := Db.username row; Db.embedding := Db.embedding row;
               Db.role := r; Db.created_at := Db.created_at row |})
    <$> find (λ x, String.eqb (Db.username x) u) rows.
Proof.
  induction rows as [|x rows IH]; [reflexivity|]. cbn [map find].
  assert (Hn : Db.username (set_role_row u r x) = Db.username x)
    by (unfold set_role_row; destruct (String.eqb _ _); reflexivity).
  rewrite Hn. destruct (String.eqb (Db.username x) u) eqn:E.
  - cbn. unfold set_role_row. rewrite E. reflexivity.
  - exact IH.
Qed.

Lemma find_set_role_row_other u u' r rows :
  u' ≠ u →
  find (λ x, String.eqb (Db.username x) u') (map (set_role_row u r) rows)
  = find (λ x, String.eqb (Db.username x) u') rows.
Proof.
  intros Hne. induction rows as [|x rows IH]; [reflexivity|]. cbn [map find].
  assert (Hn : Db.username (set_role_row u r x) = Db.username x)
    by (unfold set_role_row; destruct (String.eqb _ _); reflexivity).
  rewrite Hn. destruct (String.eqb (Db.username x) u') eqn:E'; [|exact IH].
  unfold set_role_row. apply String.eqb_eq in E'.
  rewrite (proj2 (String.eqb_neq (Db.username x) u)) by congruence. reflexivity.
Qed.

Lemma set_role_row_absent u r rows :
  find (λ x, String.eqb (Db.username x) u) rows = None →
  map (set_role_row u r) rows = rows.
Proof.
  induction rows as [|x rows IH]; [reflexivity|]. cbn [find map].
  destruct (String.eqb (Db.username x) u) eqn:E; [discriminate|].
  intros Hrest. rewrite IH by exact Hrest. unfold set_role_row. rewrite E. reflexivity.
Qed.

Lemma rowcount_find u rows :
  bool_decide (0 < length (filter (λ row, String.eqb (Db.username row) u = true) rows))%nat
  = bool_decide (is_Some (find (λ x, String.eqb (Db.username x) u) rows)).
Proof.
  apply bool_decide_ext.
  induction rows as [|x rows IH]; cbn [find].
  - rewrite filter_nil. cbn. split; [lia|intros [? [=]]].
  - rewrite filter_cons. destruct (String.eqb (Db.username x) u) eqn:E.
    + rewrite decide_True by reflexivity. cbn [length]. split; [eauto|lia].
    + rewrite decide_False by discriminate. exact IH.
Qed.

Lemma set_user_role_run u r w :
  set_user_role u r w =
  match find (λ x, String.eqb (Db.username x) u) (users w) with
  | Some _ => (Return true, with_users (map (set_role_row u r) (users w)) w)
  | None => (Return false, w)
  end.
Proof.
  unfold set_user_role. rewrite rowcount_find.
  destruct (find (λ x, String.eqb (Db.username x) u) (users w)) as [row|] eqn:E.
  - rewrite bool_decide_eq_true_2 by eauto. reflexivity.
  - rewrite bool_decide_eq_false_2 by (intros [? [=]]).
    rewrite (set_role_row_absent _ _ _ E). destruct w; reflexivity.
Qed.

End DbProps.

(** X5: what [set_state] stores under a key is what [get_state] returns
    for that key, whatever default is passed; the rows of the other keys
    are read as before; and of two writes to one key the second one
    stays. *)
Theorem state_round_trip (key key' : string) (v v' d : LockoutState) (w : World) :
  outcome (get_state key d) (exec (set_state key v) w) = Return v ∧
  (key' ≠ key →
   outcome (get_state key' d) (exec (set_state key v) w) = outcome (get_state key' d) w) ∧
  exec (set_state key v') (exec (set_state key v) w) = exec (set_state key v') w.
Proof.
  unfold outcome, exec, get_state, set_state. cbn [fst snd auth_state with_auth_state].
  repeat apply conj.
  - rewrite lookup_insert_eq. reflexivity.
  - intros Hne. rewrite lookup_insert_ne by congruence. reflexivity.
  - unfold with_auth_state. cbn. rewrite insert_insert_eq. reflexivity.
Qed.

Lemma state_round_trip_witness :
  outcome (get_state "auth:bob:10.0.0.7" {| fails := 0; locked_until := 0 |})
    (exec (set_state "auth:alice:10.0.0.7" {| fails := 3; locked_until := 0 |}) init_db)
  = Return {| fails := 0; locked_until := 0 |}.
Proof.
  destruct (state_round_trip "auth:alice:10.0.0.7" "auth:bob:10.0.0.7"
              {| fails := 3; locked_until := 0 |} {| fails := 3; locked_until := 0 |}
              {| fails := 0; locked_until := 0 |} init_db) as (_ & Hother & _).
  rewrite Hother; [reflexivity|discriminate].
Defined.

(** X6: [/enroll] of a username that has no row, with an image that
    passes the quality gate and shows one face, appends one row to
    [users]: that username, the extracted embedding, the role "user" and
    the time of the call. [get_user] then finds this row, and finds for
    every other username what it found before. *)
Theorem enroll_new_user `{Env} client username image w res :
  let w' := exec (App.enroll client username image) w in
  let row := {| Db.username := username; Db.embedding := Recognition.embedding res;
                Db.role := "user"; Db.created_at := clock (ticks w) |} in
  Recognition.extract_embedding image = Return res →
  Recognition.quality_ok res = true →
  Recognition.face_count res = 1 →
  outcome (get_user username) w = Return None →
  users w' = (users w ++ [row])%list ∧
  outcome (get_user username) w' = Return (Some row) ∧
  (∀ u', u' ≠ username → outcome (get_user u') w' = outcome (get_user u') w).
Proof.
  cbn zeta. intros Hx Hq Hf Hnone.
  unfold outcome, exec in *. rewrite (enroll_run client username image w res Hx Hq Hf).
  unfold get_user in *. cbn [fst snd users with_events with_users] in *.
  injection Hnone as Hnone.
  rewrite (upsert_rows_new _ _ _ _ _ Hnone).
  repeat apply conj.
  - reflexivity.
  - rewrite (find_username_app _ _ _ Hnone). cbn [Db.username].
    rewrite String.eqb_refl. reflexivity.
  - intros u' Hne. f_equal.
    destruct (find (λ x, String.eqb (Db.username x) u') (users w)) as [row'|] eqn:E.
    + apply find_username_app_found. exact E.
    + rewrite (find_username_app _ _ _ E). cbn [Db.username].
      rewrite (proj2 (String.eqb_neq username u')) by congruence. reflexivity.
Qed.

Lemma enroll_new_user_witness :
  outcome (get_user "alice")
    (exec (App.enroll (H := demo_env) (Some "10.0.0.7") "alice" [Byte.x03; Byte.x04])
       init_db)
  = Return (Some {| Db.username := "alice"; Db.embedding := [3%float; 4%float];
                    Db.role := "user"; Db.created_at := 1000 |}).
Proof.
  edestruct (enroll_new_user (H := demo_env) (Some "10.0.0.7") "alice"
               [Byte.x03; Byte.x04] init_db) as (_ & Hrow & _).
  - vm_compute. reflexivity.
  - reflexivity.
  - reflexivity.
  - reflexivity.
  - rewrite Hrow. vm_compute. reflexivity.
Defined.

(** X7: [set_user_role] returns [True] exactly when the username has a
    row. It then changes the role of that row and nothing else of it; with
    no such row it leaves [users] as it is. The rows of the other usernames
    are read as before. *)
Theorem set_user_role_changes_one_role (u r : string) (w : World) :
  let w' := exec (set_user_role u r) w in
  match outcome (get_user u) w with
  | Return (Some row) =>
      outcome (set_user_role u r) w = Return true ∧
      outcome (get_user u) w'
        = Return (Some {| Db.username := Db.username row;
                          Db.embedding := Db.embedding row;
                          Db.role := r;
                          Db.created_at := Db.created_at row |})
  | _ => outcome (set_user_role u r) w = Return false ∧ w' = w
  end ∧
  length (users w') = length (users w) ∧
  (∀ u', u' ≠ u → outcome (get_user u') w' = outcome (get_user u') w).
Proof.
  cbn zeta. unfold outcome, exec, set_user_role, get_user.
  cbn [fst snd users with_users]. rewrite rowcount_find.
  repeat apply conj.
  - destruct (find (λ x, String.eqb (Db.username x) u) (users w)) as [row|] eqn:E.
    + split; [rewrite bool_decide_eq_true_2 by eauto; reflexivity|].
      rewrite find_set_role_row_same, E. reflexivity.
    + split; [rewrite bool_decide_eq_false_2 by (intros [? [=]]); reflexivity|].
      rewrite (set_role_row_absent _ _ _ E). destruct w; reflexivity.
  - apply length_map.
  - intros u' Hne. rewrite find_set_role_row_other by exact Hne. reflexivity.
Qed.

Lemma set_user_role_changes_one_role_witness :
  outcome (get_user "bob")
    (exec (set_user_role "alice" "admin")
       (enroll_all (H := demo_env)
          [("alice", [Byte.x03; Byte.x04]); ("bob", [Byte.x04; Byte.x03])] init_db))
  = Return (Some {| Db.username := "bob"; Db.embedding := [4%float; 3%float];
                    Db.role := "user"; Db.created_at := 1002 |}).
Proof.
  destruct (set_user_role_changes_one_role "alice" "admin"
              (enroll_all (H := demo_env)
                 [("alice", [Byte.x03; Byte.x04]); ("bob", [Byte.x04; Byte.x03])] init_db))
    as (_ & _ & Hother).
  rewrite (Hother "bob"); [vm_compute; reflexivity|discriminate].
Defined.

(** ** The audit log read back *)

Section ListEvents.

Lemma insert_desc_perm e l : Permutation (insert_desc e l) (e :: l).
Proof.
  induction l as [|x l IH]; cbn [insert_desc]; [reflexivity|].
  destruct (ts x <? ts e); [reflexivity|]. rewrite IH. apply perm_swap.
Qed.

Lemma insert_desc_sorted e l :
  StronglySorted (λ a b, ts b ≤ ts a) l →
  StronglySorted (λ a b, ts b ≤ ts a) (insert_desc e l).
Proof.
  intros Hs. induction Hs as [|x l Hs IH Hx]; cbn [insert_desc].
  - repeat constructor.
  - destruct (Z.ltb_spec (ts x) (ts e)) as [Hlt|Hge].
    + constructor; [constructor; assumption|].
      constructor; [lia|]. eapply Forall_impl; [exact Hx|]. cbn. intros; lia.
    + constructor; [exact IH|]. rewrite insert_desc_perm. constructor; assumption.
Qed.

Lemma order_by_ts_desc_acc l acc :
  StronglySorted (λ a b, ts b ≤ ts a) acc →
  StronglySorted (λ a b, ts b ≤ ts a) (fold_left (λ acc e, insert_desc e acc) l acc) ∧
  Permutation (fold_left (λ acc e, insert_desc e acc) l acc) (acc ++ l).
Proof.
  revert acc. induction l as [|e l IH]; intros acc Hacc; cbn [fold_left].
  - rewrite app_nil_r. split; [exact Hacc|reflexivity].
  - destruct (IH (insert_desc e acc) (insert_desc_sorted e acc Hacc)) as [Hs Hp].
    split; [exact Hs|]. rewrite Hp, insert_desc_perm. apply Permutation_middle.
Qed.

Lemma order_by_ts_desc_spec l :
  StronglySorted (λ a b, ts b ≤ ts a) (order_by_ts_desc l) ∧
  Permutation (order_by_ts_desc l) l.
Proof. apply (order_by_ts_desc_acc l []). constructor. Qed.

Lemma sorted_take_drop (l : list EventRow) n :
  StronglySorted (λ a b, ts b ≤ ts a) l →
  StronglySorted (λ a b, ts b ≤ ts a) (take n l) ∧
  (∀ a b, a ∈ take n l → b ∈ drop n l → ts b ≤ ts a).
Proof.
  intros Hs. revert n. induction Hs as [|x l Hs IH Hx]; intros [|n]; cbn [take drop].
  - split; [constructor|]. intros a b Ha. apply elem_of_nil in Ha. contradiction.
  - split; [constructor|]. intros a b Ha. apply elem_of_nil in Ha. contradiction.
  - split; [constructor|]. intros a b Ha. apply elem_of_nil in Ha. contradiction.
  - destruct (IH n) as [Ht Hd]. split.
    + constructor; [exact Ht|].
      rewrite Forall_forall in Hx |- *. intros b Hb. apply Hx.
      eapply subseteq_take. exact Hb.
    + intros a b Ha Hb. apply elem_of_cons in Ha. destruct Ha as [->|Ha].
      * rewrite Forall_forall in Hx. apply Hx.
        eapply subseteq_drop. exact Hb.
      * apply Hd; assumption.
Qed.

End ListEvents.

(** X8: [list_events] with a limit that fits a signed 64-bit integer
    returns events of the log, newest first by [ts]: the [limit] newest
    when [limit] is not negative, or all of them when there are fewer or
    [limit] is negative; no event left out is newer than one returned.
    With a limit that does not fit it raises the [OverflowError] of
    sqlite3. Either way the log itself is left as it is. *)
Theorem list_events_newest_first (limit : Z) (w : World) :
  (- 2 ^ 63 ≤ limit < 2 ^ 63 →
   ∃ rows rest,
     list_events limit w = (Return rows, w) ∧
     StronglySorted (λ a b, ts b ≤ ts a) rows ∧
     Permutation (rows ++ rest) (events w) ∧
     (∀ a b, a ∈ rows → b ∈ rest → ts b ≤ ts a) ∧
     length rows = (if limit <? 0 then length (events w)
                    else Nat.min (Z.to_nat limit) (length (events w)))) ∧
  (limit < - 2 ^ 63 ∨ 2 ^ 63 ≤ limit →
   list_events limit w
   = (Raise (OverflowError "Python int too large to convert to SQLite INTEGER"), w)).
Proof.
  split.
  - intros Hfit.
    destruct (order_by_ts_desc_spec (events w)) as [Hs Hp].
    unfold list_events.
    replace ((limit <? - 2 ^ 63) || (2 ^ 63 - 1 <? limit)) with false
      by (symmetry; apply orb_false_iff; split; apply Z.ltb_ge; lia).
    destruct (limit <? 0).
    + exists (order_by_ts_desc (events w)), []. rewrite app_nil_r.
      repeat apply conj; try assumption; try reflexivity.
      * intros a b _ Hb. apply elem_of_nil in Hb. contradiction.
      * apply Permutation_length, Hp.
    + exists (take (Z.to_nat limit) (order_by_ts_desc (events w))),
        (drop (Z.to_nat limit) (order_by_ts_desc (events w))).
      destruct (sorted_take_drop _ (Z.to_nat limit) Hs) as [Ht Hd].
      repeat apply conj; try assumption; try reflexivity.
      * rewrite take_drop. exact Hp.
      * rewrite length_take, (Permutation_length Hp). reflexivity.
  - intros Hout. unfold list_events.
    replace ((limit <? - 2 ^ 63) || (2 ^ 63 - 1 <? limit)) with true; [reflexivity|].
    symmetry. apply orb_true_iff. destruct Hout as [Hlow|Hhigh].
    + left. apply Z.ltb_lt. exact Hlow.
    + right. apply Z.ltb_lt. lia.
Qed.

(** Three events, logged at 1001, 1003 and 1005, and the two newest. *)
Lemma list_events_newest_first_witness :
  ∃ rows,
    outcome (list_events 2)
      (serve_all (H := demo_env)
         (repeat (PostVerify (Some "10.0.0.7") "alice" [Byte.x03] [Byte.x03]) 3) init_db)
    = Return rows ∧ map ts rows = [1005; 1003].
Proof.
  destruct (list_events_newest_first 2
              (serve_all (H := demo_env)
                 (repeat (PostVerify (Some "10.0.0.7") "alice" [Byte.x03] [Byte.x03]) 3)
                 init_db)) as [Hfit _].
  destruct Hfit as (rows & rest & Hrun & _); [lia|].
  exists rows. unfold outcome. rewrite Hrun. split; [reflexivity|].
  vm_compute in Hrun. injection Hrun as <-. reflexivity.
Defined.

(** ** The key of a lockout row *)

Section Keys.
Context `{Env}.

Lemma app_colon_inj (s s' t t' : string) :
  colon_free s = true → colon_free s' = true →
  s +:+ ":" +:+ t = s' +:+ ":" +:+ t' → s = s' ∧ t = t'.
Proof.
  revert s'. induction s as [|c s IH]; intros [|c' s'] Hs Hs'; cbn [String.append].
  - intros [= E]. split; [reflexivity|exact E].
  - intros [= E _]. subst c'. cbn in Hs'. discriminate.
  - intros [= E _]. subst c. cbn in Hs. discriminate.
  - intros [= E Hrest]. subst c'. cbn [colon_free] in Hs, Hs'.
    apply andb_true_iff in Hs as [_ Hs]. apply andb_true_iff in Hs' as [_ Hs'].
    destruct (IH s' Hs Hs' Hrest) as [E1 E2]. split; [f_equal; exact E1|exact E2].
Qed.

Lemma string_app_assoc (s t u : string) : (s +:+ t) +:+ u = s +:+ t +:+ u.
Proof.
  induction s as [|c s IH]; [reflexivity|].
  change (String c ((s +:+ t) +:+ u) = String c (s +:+ t +:+ u)). f_equal. exact IH.
Qed.

Lemma or_unknown_some (u : string) : u ≠ "" → or_unknown (Some u) = u.
Proof. destruct u; [congruence|reflexivity]. Qed.

Lemma _key_inj (u u' ip ip' : string) :
  u ≠ "" → u' ≠ "" → colon_free u = true → colon_free u' = true →
  _key (Some u) ip = _key (Some u') ip' → u = u' ∧ ip = ip'.
Proof.
  intros Hu Hu' Hc Hc'. unfold _key.
  rewrite !or_unknown_some by assumption. cbn.
  intros [= Hk]. apply app_colon_inj; assumption.
Qed.

Lemma stored_register_fail_other u ip u' ip' w :
  _key u' ip' ≠ _key u ip →
  stored u' ip' (exec (register_fail u ip) w) = stored u' ip' w.
Proof.
  intros Hne. unfold exec. rewrite register_fail_run. cbn zeta. cbn [snd].
  unfold stored. cbn [auth_state with_auth_state with_ticks].
  rewrite lookup_insert_ne by congruence. reflexivity.
Qed.

End Keys.

(** X9: the lockout key does not tell apart a missing username, the empty
    username and the username "unknown", nor a colon in the username from
    a colon in the address: such identities share one row, so a failure
    of one counts for the other. *)
Theorem lockout_keys_collide `{Env} (u a b ip : string) (w : World) :
  _key None ip = _key (Some "unknown") ip ∧
  _key (Some "") ip = _key (Some "unknown") ip ∧
  (u ≠ "" → _key (Some (u +:+ ":" +:+ a)) b = _key (Some u) (a +:+ ":" +:+ b)) ∧
  fails (stored (Some "unknown") ip (exec (register_fail None ip) w))
    = fails (stored (Some "unknown") ip w) + 1.
Proof.
  repeat apply conj; try reflexivity.
  - intros Hu. unfold _key. rewrite (or_unknown_some u Hu).
    rewrite or_unknown_some by (destruct u; [congruence|discriminate]).
    rewrite !string_app_assoc. reflexivity.
  - change (stored (Some "unknown") ip) with (stored None ip).
    rewrite stored_register_fail. reflexivity.
Qed.

Lemma lockout_keys_collide_witness :
  _key (Some "eve:10.0.0.7") "x" = _key (Some "eve") "10.0.0.7:x".
Proof.
  destruct (lockout_keys_collide (H := demo_env) "eve" "10.0.0.7" "x" "" init_db)
    as (_ & _ & Hcolon & _).
  apply Hcolon. discriminate.
Defined.

(** X10: two identities whose usernames are not empty and have no colon
    have different keys unless both username and address agree, so a
    failure registered for one leaves the row of the other alone. *)
Theorem lockout_rows_independent `{Env} (u u' ip ip' : string) (w : World) :
  u ≠ "" → u' ≠ "" → colon_free u = true → colon_free u' = true →
  (u, ip) ≠ (u', ip') →
  _key (Some u') ip' ≠ _key (Some u) ip ∧
  stored (Some u') ip' (exec (register_fail (Some u) ip) w) = stored (Some u') ip' w ∧
  stored (Some u') ip' (exec (register_success (Some u) ip) w) = stored (Some u') ip' w.
Proof.
  intros Hu Hu' Hc Hc' Hne.
  assert (Hk : _key (Some u') ip' ≠ _key (Some u) ip).
  { intros Hk. apply _key_inj in Hk; try assumption. destruct Hk as [-> ->].
    apply Hne. reflexivity. }
  split; [exact Hk|]. split.
  - apply stored_register_fail_other, Hk.
  - unfold exec. rewrite register_success_run. cbn [snd]. unfold stored.
    cbn [auth_state with_auth_state]. rewrite lookup_insert_ne by congruence. reflexivity.
Qed.

Lemma lockout_rows_independent_witness :
  stored (Some "bob") "10.0.0.7"
    (exec (register_fail (H := demo_env) (Some "alice") "10.0.0.7") init_db)
  = {| fails := 0; locked_until := 0 |}.
Proof.
  destruct (lockout_rows_independent (H := demo_env) "alice" "bob" "10.0.0.7" "10.0.0.7"
              init_db) as (_ & Hfail & _);
    [discriminate|discriminate|reflexivity|reflexivity|discriminate|].
  rewrite Hfail. reflexivity.
Defined.

(** X11: a lock lasts 60 seconds from the failure that set it, and the
    count outlives it. After a failure that brings the count to
    [MAX_FAILS] or more, [check_lockout] answers locked with
    [60 - elapsed] seconds while fewer than 60 seconds have passed, and
    not locked, with the same count, from then on; and the next failure,
    whenever it comes, locks again for 60 seconds from its own time. *)
Theorem lock_window_and_relock `{Env} (username : option string) (ip : string) (w : World) :
  let count := fails (stored username ip w) + 1 in
  let t0 := clock (ticks w) in
  let t1 := clock (S (ticks w)) in
  let w1 := exec (register_fail username ip) w in
  MAX_FAILS ≤ count →
  (t1 < t0 + LOCKOUT_SECONDS →
   outcome (check_lockout username ip) w1
     = Return (true, count, LOCKOUT_SECONDS - (t1 - t0))) ∧
  (t0 + LOCKOUT_SECONDS ≤ t1 →
   outcome (check_lockout username ip) w1 = Return (false, count, 0)) ∧
  outcome (register_fail username ip) w1
    = Return (count + 1, true, t1 + LOCKOUT_SECONDS).
Proof.
  cbn zeta. intros Hmax.
  assert (Hs : stored username ip (exec (register_fail username ip) w)
               = {| fails := fails (stored username ip w) + 1;
                    locked_until := clock (ticks w) + LOCKOUT_SECONDS |}).
  { rewrite stored_register_fail. cbn zeta. apply Z.leb_le in Hmax. rewrite Hmax.
    reflexivity. }
  unfold outcome. rewrite check_lockout_run, register_fail_run. cbn zeta.
  rewrite Hs, ticks_register_fail. cbn [fails locked_until fst].
  repeat apply conj.
  - intros Hin. apply Z.ltb_lt in Hin. rewrite Hin. do 2 f_equal. lia.
  - intros Hout. apply Z.ltb_ge in Hout. rewrite Hout. reflexivity.
  - assert (Hle : (MAX_FAILS <=? fails (stored username ip w) + 1 + 1) = true)
      by (apply Z.leb_le; lia).
    rewrite Hle. reflexivity.
Qed.

(** The fifth failure of "alice" in a row and a check one second later:
    locked, 59 seconds to go. *)
Lemma lock_window_and_relock_witness :
  outcome (check_lockout (H := demo_env) (Some "alice") "10.0.0.7")
    (register_fail_times (H := demo_env) 5 (Some "alice") "10.0.0.7" init_db)
  = Return (true, 5, 59).
Proof.
  destruct (lock_window_and_relock (H := demo_env) (Some "alice") "10.0.0.7"
              (register_fail_times (H := demo_env) 4 (Some "alice") "10.0.0.7" init_db))
    as (Hin & _ & _).
  - vm_compute. discriminate.
  - apply Hin. vm_compute. reflexivity.
Defined.

(** ** What extraction hands to the handlers *)

Section Extraction.
Context `{Env}.
Import Recognition.


Lemma cv2_imdecode_nonempty decoder image :
  image ≠ [] → cv2_imdecode decoder image = Return (decoder image).
Proof. destruct image; [congruence|reflexivity]. Qed.

Lemma cv2_imdecode_returned decoder image o :
  cv2_imdecode decoder image = Return o → image ≠ [] ∧ decoder image = o.
Proof. destruct image; [discriminate|]. intros [= <-]. split; [discriminate|reflexivity]. Qed.

Lemma extract_embedding_decode_failed image :
  cv2_imdecode imdecode_color image = Return None →
  extract_embedding image = Raise (ValueError "Invalid image bytes (decode failed).").
Proof. intros E. unfold extract_embedding, _decode_image_bytes. rewrite E. reflexivity. Qed.

Lemma extract_embedding_decoded image bgr :
  cv2_imdecode imdecode_color image = Return (Some bgr) →
  ∃ res, extract_embedding image = Return res.
Proof.
  intros E. unfold extract_embedding, _decode_image_bytes. rewrite E.
  destruct (_quality_gate bgr) as [ok reason].
  destruct (negb ok); [eexists; reflexivity|].
  destruct (face_encodings _) as [|e [|e' es]]; eexists; reflexivity.
Qed.

(** The two exceptions of [extract_embedding], and when each is raised. *)
Lemma extract_embedding_raises image e :
  extract_embedding image = Raise e →
  (image = [] ∧ e = Cv2Error) ∨
  (cv2_imdecode imdecode_color image = Return None ∧
   e = ValueError "Invalid image bytes (decode failed).").
Proof.
  destruct image as [|x l]; [intros [= <-]; left; split; reflexivity|].
  destruct (imdecode_color (x :: l)) as [bgr|] eqn:E.
  - destruct (extract_embedding_decoded (x :: l) bgr) as [res ->]; [|discriminate].
    cbn [cv2_imdecode]. rewrite E. reflexivity.
  - rewrite extract_embedding_decode_failed by (cbn [cv2_imdecode]; rewrite E; reflexivity).
    intros [= <-]. right. split; [cbn [cv2_imdecode]; rewrite E|]; reflexivity.
Qed.

End Extraction.



(** ** The other ways out of [/verify] *)

Section VerifyPaths.
Context `{Env}.
Import App Recognition.

(** Past the lockout check. *)
Lemma verify_clear_run client username image1 image2 w :
  locked_until (stored (Some username) (_client_ip client) w) ≤ clock (ticks w) →
  verify client username image1 image2 w =
  (user_row ← get_user username;
   match user_row with
   | None =>
       log_event "verify_failed" (Some username) (Some (_client_ip client))
         [("reason", JStr "unknown_user")];;
       raise (HTTPException 404 (JStr "Unknown user. Enroll first."))
   | Some user_row =>
       match extract_embedding image1, extract_embedding image2 with
       | Raise (ValueError e), _
       | Return _, Raise (ValueError e) =>
           log_event "verify_error" (Some username) (Some (_client_ip client))
             [("error", JStr e)];;
           raise (HTTPException 400 (JStr e))
       | Raise e, _ | Return _, Raise e => raise e
       | Return r1, Return r2 =>
           if negb (quality_ok r1) || negb (quality_ok r2)
           then
             '(f, locked_now, _) ← register_fail (Some username) (_client_ip client);
             log_event "verify_failed" (Some username) (Some (_client_ip client))
               [("reason", JStr "quality_gate");
                ("quality_1", JOpt JStr (quality_reason r1));
                ("quality_2", JOpt JStr (quality_reason r2));
                ("fails", JInt f);
                ("locked", JBool locked_now)];;
             raise (HTTPException 400
                      (JDict [("error", JStr "quality_gate");
                              ("quality_1", JOpt JStr (quality_reason r1));
                              ("quality_2", JOpt JStr (quality_reason r2))]))
           else if negb (face_count r1 =? 1) || negb (face_count r2 =? 1)
           then
             '(f, locked_now, _) ← register_fail (Some username) (_client_ip client);
             log_event "verify_failed" (Some username) (Some (_client_ip client))
               [("reason", JStr "invalid_face_count");
                ("face_count_1", JInt (face_count r1));
                ("face_count_2", JInt (face_count r2));
                ("fails", JInt f);
                ("locked", JBool locked_now)];;
             raise (HTTPException 400
                      (JDict [("error", JStr "invalid_face_count");
                              ("face_count_1", JInt (face_count r1));
                              ("face_count_2", JInt (face_count r2))]))
           else
             d1 ← call (cosine_distance (embedding r1) (Db.embedding user_row));
             d2 ← call (cosine_distance (embedding r2) (Db.embedding user_row));
             motion ← call (motion_heuristic image1 image2);
             let liveness_pass := (MOTION_THRESHOLD <=? motion)%float in
             let meta := [("d1", JFloat d1); ("d2", JFloat d2);
                          ("match_threshold", JFloat MATCH_THRESHOLD);
                          ("motion", JFloat motion);
                          ("motion_threshold", JFloat MOTION_THRESHOLD);
                          ("liveness_pass", JBool liveness_pass)] in
             if (d1 <=? MATCH_THRESHOLD)%float && (d2 <=? MATCH_THRESHOLD)%float
                && liveness_pass
             then
               register_success (Some username) (_client_ip client);;
               token ← Auth.create_access_token username (Db.role user_row);
               log_event "verify_success" (Some username) (Some (_client_ip client)) meta;;
               mret {| vr_authenticated := true; vr_token := token;
                       vr_role := Db.role user_row; vr_meta := meta |}
             else
               '(f, locked_now, locked_until) ←
                  register_fail (Some username) (_client_ip client);
               let meta := (meta ++ [("fails", JInt f); ("locked", JBool locked_now);
                                     ("locked_until",
                                      if locked_now then JInt locked_until else JNull)])%list in
               log_event "verify_failed" (Some username) (Some (_client_ip client)) meta;;
               raise (HTTPException 401 (JDict (("authenticated", JBool false) :: meta)))
       end
   end) (checked w).
Proof.
  intros Hclear. apply Z.ltb_ge in Hclear. unfold verify.
  erewrite bind_return by (rewrite check_lockout_run; cbn zeta; rewrite Hclear; reflexivity).
  reflexivity.
Qed.

Lemma verify_unknown_user_run client username image1 image2 w :
  locked_until (stored (Some username) (_client_ip client) w) ≤ clock (ticks w) →
  find (λ row, String.eqb (Db.username row) username) (users w) = None →
  verify client username image1 image2 w =
  (Raise (HTTPException 404 (JStr "Unknown user. Enroll first.")),
   with_events
     (events w ++ [ {| ts := clock (S (ticks w)); event_type := "verify_failed";
                      ev_username := Some username;
                      ev_ip := Some (_client_ip client);
                      meta := [("reason", JStr "unknown_user")] |} ])
     (with_ticks (S (S (ticks w))) w)).
Proof.
  intros Hclear Hnone. rewrite verify_clear_run by exact Hclear.
  erewrite bind_return by (unfold get_user; cbn [users checked with_ticks]; rewrite Hnone;
                           reflexivity).
  reflexivity.
Qed.



Lemma verify_gate_run client username image1 image2 w row r1 r2 :
  locked_until (stored (Some username) (_client_ip client) w) ≤ clock (ticks w) →
  find (λ row, String.eqb (Db.username row) username) (users w) = Some row →
  extract_embedding image1 = Return r1 →
  extract_embedding image2 = Return r2 →
  let quality := negb (quality_ok r1) || negb (quality_ok r2) in
  let faces := negb (face_count r1 =? 1) || negb (face_count r2 =? 1) in
  quality || faces = true →
  let state := stored (Some username) (_client_ip client) w in
  let n := fails state + 1 in
  let until := if MAX_FAILS <=? n then clock (S (ticks w)) + LOCKOUT_SECONDS
               else locked_until state in
  verify client username image1 image2 w =
  (Raise (HTTPException 400
            (if quality
             then JDict [("error", JStr "quality_gate");
                         ("quality_1", JOpt JStr (quality_reason r1));
                         ("quality_2", JOpt JStr (quality_reason r2))]
             else JDict [("error", JStr "invalid_face_count");
                         ("face_count_1", JInt (face_count r1));
                         ("face_count_2", JInt (face_count r2))])),
   with_events
     (events w ++ [ {| ts := clock (S (S (ticks w))); event_type := "verify_failed";
                      ev_username := Some username;
                      ev_ip := Some (_client_ip client);
                      meta := if quality
                              then [("reason", JStr "quality_gate");
                                    ("quality_1", JOpt JStr (quality_reason r1));
                                    ("quality_2", JOpt JStr (quality_reason r2));
                                    ("fails", JInt n);
                                    ("locked", JBool (MAX_FAILS <=? n))]
                              else [("reason", JStr "invalid_face_count");
                                    ("face_count_1", JInt (face_count r1));
                                    ("face_count_2", JInt (face_count r2));
                                    ("fails", JInt n);
                                    ("locked", JBool (MAX_FAILS <=? n))] |} ])
     (with_auth_state
        (<[_key (Some username) (_client_ip client)
           := {| fails := n; locked_until := until |}]> (auth_state w))
        (with_ticks (S (S (S (ticks w)))) w))).
Proof.
  intros Hclear Hrow Hx1 Hx2. cbn zeta. intros Hgate.
  rewrite verify_clear_run by exact Hclear.
  erewrite bind_return by (unfold get_user; cbn [users checked with_ticks]; rewrite Hrow;
                           reflexivity).
  cbn beta iota. rewrite Hx1, Hx2.
  destruct (negb (quality_ok r1) || negb (quality_ok r2)).
  - erewrite bind_return by (rewrite register_fail_run; reflexivity).
    cbn beta iota. erewrite bind_return by apply log_event_run. reflexivity.
  - cbn [orb] in Hgate. rewrite Hgate.
    erewrite bind_return by (rewrite register_fail_run; reflexivity).
    cbn beta iota. erewrite bind_return by apply log_event_run. reflexivity.
Qed.

End VerifyPaths.

(** X13: a [/verify] for a username that has no row, with the key not
    locked, is answered 404 after one [verify_failed] event with the
    reason [unknown_user]. It is no failed attempt: the lockout rows are
    as before, and so are the users. *)
Theorem verify_unknown_user_not_counted `{Env} client username image1 image2 w :
  let ip := App._client_ip client in
  let w' := exec (App.verify client username image1 image2) w in
  locked_until (stored (Some username) ip w) ≤ clock (ticks w) →
  outcome (get_user username) w = Return None →
  outcome (App.verify client username image1 image2) w
    = Raise (HTTPException 404 (JStr "Unknown user. Enroll first.")) ∧
  events w' = (events w ++
               [ {| ts := clock (S (ticks w)); event_type := "verify_failed";
                    ev_username := Some username; ev_ip := Some ip;
                    meta := [("reason", JStr "unknown_user")] |} ])%list ∧
  auth_state w' = auth_state w ∧
  users w' = users w.
Proof.
  cbn zeta. intros Hclear Hnone. unfold outcome, get_user in Hnone. cbn [fst] in Hnone.
  injection Hnone as Hnone. unfold outcome, exec.
  rewrite (verify_unknown_user_run client username image1 image2 w Hclear Hnone).
  repeat apply conj; reflexivity.
Qed.

Lemma verify_unknown_user_not_counted_witness :
  outcome (App.verify (H := demo_env) (Some "10.0.0.7") "mallory" [Byte.x03] [Byte.x04])
    init_db
  = Raise (HTTPException 404 (JStr "Unknown user. Enroll first.")).
Proof.
  apply (verify_unknown_user_not_counted (H := demo_env) (Some "10.0.0.7") "mallory"
           [Byte.x03] [Byte.x04] init_db).
  - vm_compute. discriminate.
  - reflexivity.
Defined.



(** X15: when both images of a [/verify] decode, the key not being locked
    and the user enrolled, but one of them fails the quality gate or does
    not show exactly one face, the answer is 400, and the request is a
    failed attempt: [register_fail] has added 1 to the count of the key,
    and one [verify_failed] event is recorded. The quality gate is looked
    at first: when it fails the answer names [quality_gate], whatever the
    face counts are. *)
Theorem verify_gate_failure_counted `{Env} client username image1 image2 w row r1 r2 :
  let ip := App._client_ip client in
  let w' := exec (App.verify client username image1 image2) w in
  let quality := negb (Recognition.quality_ok r1) || negb (Recognition.quality_ok r2) in
  let faces := negb (Recognition.face_count r1 =? 1)
               || negb (Recognition.face_count r2 =? 1) in
  locked_until (stored (Some username) ip w) ≤ clock (ticks w) →
  outcome (get_user username) w = Return (Some row) →
  Recognition.extract_embedding image1 = Return r1 →
  Recognition.extract_embedding image2 = Return r2 →
  quality || faces = true →
  (∃ detail,
     outcome (App.verify client username image1 image2) w
       = Raise (HTTPException 400 (JDict (("error", JStr (if quality then "quality_gate"
                                                          else "invalid_face_count"))
                                          :: detail)))) ∧
  (∃ e, events w' = (events w ++ [e])%list ∧ event_type e = "verify_failed") ∧
  auth_state w' = auth_state (exec (register_fail (Some username) ip) (checked w)) ∧
  fails (stored (Some username) ip w') = fails (stored (Some username) ip w) + 1.
Proof.
  cbn zeta. intros Hclear Hrow Hx1 Hx2 Hgate. unfold outcome, get_user in Hrow.
  cbn [fst] in Hrow. injection Hrow as Hrow. unfold outcome, exec.
  rewrite (verify_gate_run client username image1 image2 w row r1 r2 Hclear Hrow Hx1 Hx2
             Hgate).
  rewrite register_fail_run. cbn zeta. cbn [fst snd].
  repeat apply conj.
  - destruct (negb (Recognition.quality_ok r1) || negb (Recognition.quality_ok r2));
      eexists; reflexivity.
  - eexists. split; [reflexivity|]. reflexivity.
  - reflexivity.
  - erewrite stored_insert; [|reflexivity]. reflexivity.
Qed.

(** Every image is blurred: the first failed attempt of "alice". *)
Lemma verify_gate_failure_counted_witness :
  fails (stored (Some "alice") "10.0.0.7"
           (exec (App.verify (H := blurry_env) (Some "10.0.0.7") "alice"
                    [Byte.x03; Byte.x04] [Byte.x03; Byte.x04])
              (enroll_all (H := demo_env) [("alice", [Byte.x03; Byte.x04])] init_db)))
  = 1.
Proof.
  edestruct (verify_gate_failure_counted (H := blurry_env) (Some "10.0.0.7") "alice"
               [Byte.x03; Byte.x04] [Byte.x03; Byte.x04]
               (enroll_all (H := demo_env) [("alice", [Byte.x03; Byte.x04])] init_db))
    as (_ & _ & _ & Hfails).
  - vm_compute. discriminate.
  - vm_compute. reflexivity.
  - vm_compute. reflexivity.
  - vm_compute. reflexivity.
  - reflexivity.
  - etransitivity; [exact Hfails|reflexivity].
Defined.

(** ** What [/verify] can answer and touch *)

Section VerifyFrame.
Context `{Env}.
Import App.

Lemma keeps_other_key_register_fail k u ip :
  k ≠ _key u ip → keeps (λ w, auth_state w !! k) (register_fail u ip).
Proof.
  intros Hk w. unfold exec. rewrite register_fail_run. cbn zeta.
  cbn [snd auth_state with_auth_state with_ticks].
  apply lookup_insert_ne. congruence.
Qed.

Lemma keeps_other_key_register_success k u ip :
  k ≠ _key u ip → keeps (λ w, auth_state w !! k) (register_success u ip).
Proof.
  intros Hk w. unfold exec. rewrite register_success_run.
  cbn [snd auth_state with_auth_state]. apply lookup_insert_ne. congruence.
Qed.

Lemma verify_keeps_other_keys k client username image1 image2 :
  k ≠ _key (Some username) (_client_ip client) →
  keeps (λ w, auth_state w !! k) (verify client username image1 image2).
Proof.
  intros Hk. unfold verify.
  repeat first [ apply keeps_other_key_register_fail; exact Hk
               | apply keeps_other_key_register_success; exact Hk
               | keeps_step ].
Qed.

End VerifyFrame.

(** X16: a request changes at most one lockout row, the one of its own
    identity: [/verify] leaves the row of every key other than that of its
    username and client address as it was, and the other five routes leave
    every row as it was. *)
Theorem request_touches_own_lockout_row `{Env} (r : Request) (k : string) (w : World) :
  match r with
  | PostVerify client username _ _ => k ≠ _key (Some username) (App._client_ip client)
  | _ => True
  end →
  auth_state (serve r w) !! k = auth_state w !! k.
Proof.
  destruct r as [creds|client u image|client u image1 image2|client image top_k creds
                |u role client creds|limit creds]; cbn [serve]; intros Hk.
  - rewrite (me_keeps_auth_state creds w). reflexivity.
  - rewrite (enroll_keeps_auth_state client u image w). reflexivity.
  - apply (verify_keeps_other_keys k client u image1 image2 Hk w).
  - rewrite (search_keeps_auth_state client image top_k creds w). reflexivity.
  - rewrite (admin_set_role_keeps_auth_state u role client creds w). reflexivity.
  - rewrite (admin_events_keeps_auth_state limit creds w). reflexivity.
Qed.

(** A failed attempt on "alice" leaves no row for "bob". *)
Lemma request_touches_own_lockout_row_witness :
  auth_state
    (serve (H := blurry_env)
       (PostVerify (Some "10.0.0.7") "alice" [Byte.x03; Byte.x04] [Byte.x03; Byte.x04])
       (enroll_all (H := demo_env) [("alice", [Byte.x03; Byte.x04])] init_db))
    !! "auth:bob:10.0.0.7"
  = None.
Proof.
  rewrite (request_touches_own_lockout_row (H := blurry_env)
             (PostVerify (Some "10.0.0.7") "alice" [Byte.x03; Byte.x04] [Byte.x03; Byte.x04])
             "auth:bob:10.0.0.7");
    [reflexivity|]. cbn. discriminate.
Defined.

Section VerifyAnswers.
Context `{Env}.
Import App Recognition.





End VerifyAnswers.


(** ** Who a request acts as *)

Section CurrentUser.
Context `{Env}.
Import Auth.

Lemma decode_token_issued (u r : string) (issued exp : Z) w :
  let payload := [("sub", JStr u); ("role", JStr r); ("iat", JInt issued); ("exp", JInt exp)] in
  decode_token (jwt_encode payload SECRET_KEY ALGORITHM) w =
  if exp <? clock (ticks w)
  then (Raise (HTTPException 401 (JStr "Invalid or expired token")),
        with_ticks (S (ticks w)) w)
  else (Return payload, with_ticks (S (ticks w)) w).
Proof.
  cbn zeta. unfold decode_token. rewrite jwt_decode_issued.
  destruct (_ <? _); reflexivity.
Qed.

Lemma get_current_user_issued (s u r : string) (issued exp : Z) w :
  let payload := [("sub", JStr u); ("role", JStr r); ("iat", JInt issued); ("exp", JInt exp)] in
  str_lower s = "bearer" →
  get_current_user
    (Some {| scheme := s; credentials := jwt_encode payload SECRET_KEY ALGORITHM |}) w =
  (if exp <? clock (ticks w)
   then Raise (HTTPException 401 (JStr "Invalid or expired token"))
   else if String.eqb u ""
   then Raise (HTTPException 401 (JStr "Invalid token payload"))
   else Return {| cu_username := JStr u; cu_role := JStr r |},
   with_ticks (S (ticks w)) w).
Proof.
  cbn zeta. intros Hs. unfold get_current_user. cbn [scheme credentials].
  rewrite Hs. cbn [String.eqb Ascii.eqb Bool.eqb negb andb].
  destruct (exp <? clock (ticks w)) eqn:E.
  - erewrite bind_raise; [reflexivity|]. rewrite decode_token_issued. cbn zeta.
    rewrite E. reflexivity.
  - erewrite bind_return by (rewrite decode_token_issued; cbn zeta; rewrite E; reflexivity).
    cbn [dict_get String.eqb Ascii.eqb Bool.eqb andb default].
    destruct u; reflexivity.
Qed.

Lemma require_role_issued allowed (s u r : string) (issued exp : Z) w :
  let payload := [("sub", JStr u); ("role", JStr r); ("iat", JInt issued); ("exp", JInt exp)] in
  str_lower s = "bearer" → u ≠ "" → (exp <? clock (ticks w)) = false →
  require_role allowed
    (Some {| scheme := s; credentials := jwt_encode payload SECRET_KEY ALGORITHM |}) w =
  (if bool_decide (r ∈ allowed)
   then Return {| cu_username := JStr u; cu_role := JStr r |}
   else Raise (HTTPException 403 (JStr "Insufficient privileges")),
   with_ticks (S (ticks w)) w).
Proof.
  cbn zeta. intros Hs Hu Hexp. unfold require_role.
  erewrite bind_return.
  2:{ rewrite get_current_user_issued by exact Hs. cbn zeta. rewrite Hexp.
      rewrite (proj2 (String.eqb_neq u "")) by exact Hu. reflexivity. }
  cbn [cu_role].
  assert (Hex : existsb (json_eq_str (JStr r)) allowed = bool_decide (r ∈ allowed)).
  { induction allowed as [|a allowed IH]; cbn [existsb json_eq_str].
    - rewrite bool_decide_eq_false_2 by apply not_elem_of_nil. reflexivity.
    - destruct (String.eqb r a) eqn:E.
      + apply String.eqb_eq in E. subst a.
        rewrite bool_decide_eq_true_2 by apply list_elem_of_here. reflexivity.
      + apply String.eqb_neq in E. cbn [orb]. rewrite IH.
        apply bool_decide_ext. rewrite elem_of_cons. intuition congruence. }
  rewrite Hex. destruct (bool_decide _); reflexivity.
Qed.

End CurrentUser.

(** X18: the token that [create_access_token] made for [u] and [r],
    sent with a scheme that lower-cases to "bearer" while the clock has not
    passed its [exp], makes the request act as username [u] with role [r];
    for the empty username the answer is 401. Without credentials, or with
    another scheme, the answer is 401 and the token is not looked at: the
    clock is not even read. *)
Theorem current_user_round_trip `{Env} (s u r : string) (w0 w : World) :
  let exp := clock (ticks w0) + ACCESS_TOKEN_TTL_SECONDS in
  ∃ token,
    outcome (Auth.create_access_token u r) w0 = Return token ∧
    (str_lower s = "bearer" → clock (ticks w) ≤ exp →
     outcome (Auth.get_current_user
                (Some {| Auth.scheme := s; Auth.credentials := token |})) w
     = if String.eqb u ""
       then Raise (HTTPException 401 (JStr "Invalid token payload"))
       else Return {| Auth.cu_username := JStr u; Auth.cu_role := JStr r |}) ∧
    (str_lower s ≠ "bearer" →
     ∀ t, Auth.get_current_user (Some {| Auth.scheme := s; Auth.credentials := t |}) w
          = (Raise (HTTPException 401 (JStr "Missing Bearer token")), w)) ∧
    Auth.get_current_user None w
      = (Raise (HTTPException 401 (JStr "Missing Bearer token")), w).
Proof.
  cbn zeta. eexists. split; [reflexivity|]. repeat apply conj.
  - intros Hs Hexp. unfold outcome.
    rewrite (get_current_user_issued s u r _ _ w Hs). cbn zeta. cbn [fst].
    apply Z.ltb_ge in Hexp. rewrite Hexp. reflexivity.
  - intros Hs t. unfold Auth.get_current_user. cbn [Auth.scheme].
    apply String.eqb_neq in Hs. rewrite Hs. reflexivity.
  - reflexivity.
Qed.

Lemma current_user_round_trip_witness :
  outcome (Auth.get_current_user (H := demo_env) (bearer demo_token)) (with_ticks 5 init_db)
  = Return {| Auth.cu_username := JStr "alice"; Auth.cu_role := JStr "user" |}.
Proof.
  destruct (current_user_round_trip (H := demo_env) "bearer" "alice" "user" init_db
              (with_ticks 5 init_db)) as (token & Hmade & Hgood & _).
  injection Hmade as <-.
  apply Hgood; [reflexivity|]. vm_compute. discriminate.
Defined.

(** X19: the two admin routes look at the role in the token. With a valid
    token whose role is not "admin", [/admin/set-role] is answered 403 and
    no table is written; with one whose role is neither "admin" nor
    "analyst", [/admin/events] is answered 403; and with the role "admin"
    or "analyst", [/admin/events] returns what [list_events] returns. *)
Theorem admin_routes_check_role `{Env} (s u r : string) (w0 w : World)
    (target role : string) (client : option string) (limit : Z) :
  let exp := clock (ticks w0) + ACCESS_TOKEN_TTL_SECONDS in
  let forbidden := HTTPException 403 (JStr "Insufficient privileges") in
  str_lower s = "bearer" → u ≠ "" → clock (ticks w) ≤ exp →
  ∃ token,
    outcome (Auth.create_access_token u r) w0 = Return token ∧
    let creds := Some {| Auth.scheme := s; Auth.credentials := token |} in
    (r ≠ "admin" →
     outcome (App.admin_set_role target role client creds) w = Raise forbidden ∧
     tables (exec (App.admin_set_role target role client creds) w) = tables w) ∧
    (r ≠ "admin" → r ≠ "analyst" →
     outcome (App.admin_events limit creds) w = Raise forbidden) ∧
    (r = "admin" ∨ r = "analyst" →
     outcome (App.admin_events limit creds) w = outcome (list_events limit) w).
Proof.
  cbn zeta. intros Hs Hu Hexp. apply Z.ltb_ge in Hexp.
  eexists. split; [reflexivity|]. cbn zeta. repeat apply conj.
  - intros Hr. unfold outcome, exec, App.admin_set_role.
    erewrite bind_raise.
    2:{ rewrite (require_role_issued ["admin"] s u r _ _ w Hs Hu Hexp).
        rewrite bool_decide_eq_false_2; [reflexivity|].
        rewrite list_elem_of_singleton. exact Hr. }
    split; reflexivity.
  - intros Hr Hr'. unfold outcome, App.admin_events.
    erewrite bind_raise.
    2:{ rewrite (require_role_issued ["admin"; "analyst"] s u r _ _ w Hs Hu Hexp).
        rewrite bool_decide_eq_false_2; [reflexivity|].
        rewrite !elem_of_cons, elem_of_nil. tauto. }
    reflexivity.
  - intros Hr. unfold outcome, App.admin_events.
    erewrite bind_return.
    2:{ rewrite (require_role_issued ["admin"; "analyst"] s u r _ _ w Hs Hu Hexp).
        rewrite bool_decide_eq_true_2; [reflexivity|].
        rewrite !elem_of_cons. tauto. }
    unfold list_events. destruct (_ || _); reflexivity.
Qed.

Lemma admin_routes_check_role_witness :
  outcome (App.admin_set_role (H := demo_env) "alice" "admin" (Some "10.0.0.7")
             (bearer (demo_token_of "analyst")))
    (with_ticks 5 init_db)
  = Raise (HTTPException 403 (JStr "Insufficient privileges")).
Proof.
  destruct (admin_routes_check_role (H := demo_env) "bearer" "root" "analyst" init_db
              (with_ticks 5 init_db) "alice" "admin" (Some "10.0.0.7") 50)
    as (token & Hmade & Hset & _);
    [reflexivity|discriminate|vm_compute; discriminate|].
  injection Hmade as <-.
  apply Hset. discriminate.
Defined.

(** ** The ways out of [/admin/set-role], [/enroll] and [/search] *)

Section AdminSetRole.
Context `{Env}.
Import App.

Lemma admin_set_role_authorized_run username role client creds w admin w1 :
  Auth.require_role ["admin"] creds w = (Return admin, w1) →
  admin_set_role username role client creds w =
  let role' := str_lower (str_strip role) in
  if negb (bool_decide (role' ∈ ALLOWED_ROLES))
  then (Raise (HTTPException 400
                 (JStr "Invalid role. Allowed: ['admin', 'analyst', 'user']")), w1)
  else
    (ok ← set_user_role username role';
     if negb ok
     then raise (HTTPException 404 (JStr "User not found"))
     else
       log_event "admin_set_role" (Some (Auth.str_of (Auth.cu_username admin)))
         (Some (_client_ip client)) [("target", JStr username); ("role", JStr role')];;
       mret (JDict [("ok", JBool true); ("username", JStr username);
                    ("role", JStr role')])) w1.
Proof.
  intros Hauth. unfold admin_set_role. erewrite bind_return by exact Hauth.
  cbn zeta. destruct (negb _); reflexivity.
Qed.

End AdminSetRole.

(** X20: for a caller whom [require_role("admin")] lets through,
    [/admin/set-role] strips and lower-cases the role first. A role that is
    then not "user", "admin" or "analyst" is refused with 400 and a target
    without a row with 404, both without a write to [users] and without an
    event. Otherwise the target's row gets the normalised role, one
    [admin_set_role] event is recorded, and the answer names that role. *)
Theorem admin_set_role_paths `{Env} username role client creds w admin w1 :
  let role' := str_lower (str_strip role) in
  let w' := exec (App.admin_set_role username role client creds) w in
  Auth.require_role ["admin"] creds w = (Return admin, w1) →
  (role' ∉ App.ALLOWED_ROLES →
   App.admin_set_role username role client creds w
   = (Raise (HTTPException 400
               (JStr "Invalid role. Allowed: ['admin', 'analyst', 'user']")), w1)) ∧
  (role' ∈ App.ALLOWED_ROLES → outcome (get_user username) w = Return None →
   App.admin_set_role username role client creds w
   = (Raise (HTTPException 404 (JStr "User not found")), w1)) ∧
  (∀ row, role' ∈ App.ALLOWED_ROLES → outcome (get_user username) w = Return (Some row) →
     outcome (App.admin_set_role username role client creds) w
       = Return (JDict [("ok", JBool true); ("username", JStr username);
                        ("role", JStr role')]) ∧
     outcome (get_user username) w'
       = Return (Some {| Db.username := Db.username row;
                         Db.embedding := Db.embedding row;
                         Db.role := role';
                         Db.created_at := Db.created_at row |}) ∧
     ∃ e, events w' = (events w ++ [e])%list ∧ event_type e = "admin_set_role" ∧
          meta e = [("target", JStr username); ("role", JStr role')]) ∧
  tables w1 = tables w.
Proof.
  cbn zeta. intros Hauth.
  assert (Ht : tables w1 = tables w).
  { pose proof (keeps_require_role tables ltac:(reflexivity) ["admin"] creds w) as K.
    unfold exec in K. rewrite Hauth in K. exact K. }
  injection Ht as Ha Hu He.
  rewrite (admin_set_role_authorized_run username role client creds w admin w1 Hauth).
  cbn zeta. unfold outcome, exec, get_user. cbn [fst].
  repeat apply conj.
  - intros Hbad. rewrite bool_decide_eq_false_2 by exact Hbad. reflexivity.
  - intros Hok [= Hnone]. rewrite bool_decide_eq_true_2 by exact Hok. cbn [negb].
    erewrite bind_return by (rewrite set_user_role_run, Hu, Hnone; reflexivity).
    reflexivity.
  - intros row Hok [= Hrow].
    rewrite (admin_set_role_authorized_run username role client creds w admin w1 Hauth).
    cbn zeta. rewrite bool_decide_eq_true_2 by exact Hok. cbn [negb].
    erewrite bind_return by (rewrite set_user_role_run, Hu, Hrow; reflexivity).
    cbn [negb].
    erewrite bind_return by apply log_event_run.
    unfold mret, M_ret.
    cbn [fst snd users events with_events with_users with_ticks].
    repeat apply conj.
    + reflexivity.
    + rewrite find_set_role_row_same, Hrow. reflexivity.
    + eexists. rewrite He. split; [reflexivity|]. split; reflexivity.
  - unfold tables. congruence.
Qed.

(** The demo token of an admin sets "alice" to the role "analyst". *)
Lemma admin_set_role_paths_witness :
  outcome (get_user "alice")
    (exec (App.admin_set_role (H := demo_env) "alice" "analyst" (Some "10.0.0.7")
             (bearer (demo_token_of "admin")))
       (enroll_all (H := demo_env) [("alice", [Byte.x03; Byte.x04])] init_db))
  = Return (Some {| Db.username := "alice"; Db.embedding := [3%float; 4%float];
                    Db.role := "analyst"; Db.created_at := 1000 |}).
Proof.
  edestruct (admin_set_role_paths (H := demo_env) "alice" "analyst" (Some "10.0.0.7")
               (bearer (demo_token_of "admin"))
               (enroll_all (H := demo_env) [("alice", [Byte.x03; Byte.x04])] init_db))
    as (_ & _ & Hset & _).
  - vm_compute. reflexivity.
  - edestruct Hset as (_ & Hrow & _).
    + eapply (bool_decide_unpack _). vm_compute. exact I.
    + vm_compute. reflexivity.
    + etransitivity; [exact Hrow|]. vm_compute. reflexivity.
Defined.

(** ** What a 200 of [/verify] stands for *)

Section VerifyGrants.
Context `{Env}.
Import App Recognition.

Lemma verify_return_inv client username image1 image2 w resp :
  outcome (verify client username image1 image2) w = Return resp →
  ∃ row r1 r2 d1 d2 motion,
    locked_until (stored (Some username) (_client_ip client) w) ≤ clock (ticks w) ∧
    find (λ row, String.eqb (Db.username row) username) (users w) = Some row ∧
    extract_embedding image1 = Return r1 ∧
    extract_embedding image2 = Return r2 ∧
    (quality_ok r1 = true ∧ quality_ok r2 = true) ∧
    (face_count r1 = 1 ∧ face_count r2 = 1) ∧
    cosine_distance (embedding r1) (Db.embedding row) = Return d1 ∧
    cosine_distance (embedding r2) (Db.embedding row) = Return d2 ∧
    motion_heuristic image1 image2 = Return motion ∧
    ((d1 <=? MATCH_THRESHOLD)%float = true ∧
     (d2 <=? MATCH_THRESHOLD)%float = true ∧
     (MOTION_THRESHOLD <=? motion)%float = true) ∧
    resp = {| vr_authenticated := true;
              vr_token :=
                Auth.jwt_encode
                  [("sub", JStr username); ("role", JStr (Db.role row));
                   ("iat", JInt (clock (S (ticks w))));
                   ("exp", JInt (clock (S (ticks w)) + ACCESS_TOKEN_TTL_SECONDS))]
                  SECRET_KEY Auth.ALGORITHM;
              vr_role := Db.role row;
              vr_meta := [("d1", JFloat d1); ("d2", JFloat d2);
                          ("match_threshold", JFloat MATCH_THRESHOLD);
                          ("motion", JFloat motion);
                          ("motion_threshold", JFloat MOTION_THRESHOLD);
                          ("liveness_pass", JBool (MOTION_THRESHOLD <=? motion)%float)] |}.
Proof.
  unfold outcome.
  destruct (Z.lt_ge_cases (clock (ticks w))
              (locked_until (stored (Some username) (_client_ip client) w)))
    as [Hlocked|Hclear].
  { rewrite (verify_locked_run client username image1 image2 w Hlocked). discriminate. }
  rewrite (verify_clear_run client username image1 image2 w Hclear).
  unfold mbind at 1. unfold M_bind at 1. unfold get_user at 1.
  cbn [users checked with_ticks].
  destruct (find _ (users w)) as [row|] eqn:Hrow; cbn beta iota.
  2:{ erewrite bind_return by apply log_event_run. discriminate. }
  destruct (extract_embedding image1) as [r1|e1] eqn:Hx1.
  2:{ destruct (extract_embedding_raises image1 e1 Hx1) as [[_ ->]|[_ ->]];
        [discriminate|].
      cbn beta iota. erewrite bind_return by apply log_event_run. discriminate. }
  destruct (extract_embedding image2) as [r2|e2] eqn:Hx2.
  2:{ destruct (extract_embedding_raises image2 e2 Hx2) as [[_ ->]|[_ ->]];
        [discriminate|].
      cbn beta iota. erewrite bind_return by apply log_event_run. discriminate. }
  destruct (negb (quality_ok r1) || negb (quality_ok r2)) eqn:Hq.
  { erewrite bind_return by (rewrite register_fail_run; reflexivity).
    cbn beta iota. erewrite bind_return by apply log_event_run. discriminate. }
  destruct (negb (face_count r1 =? 1) || negb (face_count r2 =? 1)) eqn:Hf.
  { erewrite bind_return by (rewrite register_fail_run; reflexivity).
    cbn beta iota. erewrite bind_return by apply log_event_run. discriminate. }
  destruct (cosine_distance (embedding r1) (Db.embedding row)) as [d1|e] eqn:Hd1.
  2:{ discriminate. }
  erewrite bind_return by reflexivity.
  destruct (cosine_distance (embedding r2) (Db.embedding row)) as [d2|e] eqn:Hd2.
  2:{ discriminate. }
  erewrite bind_return by reflexivity.
  destruct (motion_heuristic image1 image2) as [motion|e] eqn:Hmotion.
  2:{ discriminate. }
  erewrite bind_return by reflexivity. cbn zeta.
  destruct (_ && _ && _) eqn:Hok.
  - intros [= <-].
    apply orb_false_iff in Hq as [Hq1 Hq2]. apply negb_false_iff in Hq1, Hq2.
    apply orb_false_iff in Hf as [Hf1 Hf2]. apply negb_false_iff in Hf1, Hf2.
    apply Z.eqb_eq in Hf1, Hf2.
    apply andb_true_iff in Hok as [Hok Hm]. apply andb_true_iff in Hok as [Hm1 Hm2].
    exists row, r1, r2, d1, d2, motion. repeat apply conj; try assumption; reflexivity.
  - erewrite bind_return by (rewrite register_fail_run; reflexivity).
    cbn beta iota. erewrite bind_return by apply log_event_run. discriminate.
Qed.

End VerifyGrants.

(** X21: [/verify] answers 200 only to a request that has passed every
    check. When it returns, the key was not locked, the username has a row,
    both images decoded and passed the quality gate with exactly one face
    each, both distances to the row's template were computed and are at
    most [MATCH_THRESHOLD], the motion score of the two frames was computed
    and is at least [MOTION_THRESHOLD], so both frames decoded in grayscale
    too, and the role in the answer is the role of the row. *)
Theorem verify_grants_only_when `{Env} client username image1 image2 w resp :
  outcome (App.verify client username image1 image2) w = Return resp →
  ∃ row r1 r2 d1 d2 motion,
    locked_until (stored (Some username) (App._client_ip client) w) ≤ clock (ticks w) ∧
    outcome (get_user username) w = Return (Some row) ∧
    Recognition.extract_embedding image1 = Return r1 ∧
    Recognition.extract_embedding image2 = Return r2 ∧
    (Recognition.quality_ok r1 = true ∧ Recognition.quality_ok r2 = true) ∧
    (Recognition.face_count r1 = 1 ∧ Recognition.face_count r2 = 1) ∧
    Recognition.cosine_distance (Recognition.embedding r1) (Db.embedding row) = Return d1 ∧
    Recognition.cosine_distance (Recognition.embedding r2) (Db.embedding row) = Return d2 ∧
    Recognition.motion_heuristic image1 image2 = Return motion ∧
    ((d1 <=? App.MATCH_THRESHOLD)%float = true ∧
     (d2 <=? App.MATCH_THRESHOLD)%float = true ∧
     (App.MOTION_THRESHOLD <=? motion)%float = true) ∧
    (is_Some (imdecode_gray image1) ∧ is_Some (imdecode_gray image2)) ∧
    App.vr_role resp = Db.role row.
Proof.
  intros Hret.
  destruct (verify_return_inv client username image1 image2 w resp Hret)
    as (row & r1 & r2 & d1 & d2 & motion & Hclear & Hrow & Hx1 & Hx2 & Hq & Hf & Hd1 & Hd2
        & Hmotion & Hm & ->).
  exists row, r1, r2, d1, d2, motion.
  assert (Hgray : is_Some (imdecode_gray image1) ∧ is_Some (imdecode_gray image2)).
  { destruct Hm as (_ & _ & Hm). revert Hmotion.
    unfold Recognition.motion_heuristic, Recognition.cv2_imdecode.
    destruct image1 as [|x1 l1]; [discriminate|]. destruct image2 as [|x2 l2]; [discriminate|].
    destruct (imdecode_gray (x1 :: l1));
      [destruct (imdecode_gray (x2 :: l2))|];
      intros [= <-]; try (vm_compute in Hm; discriminate).
    split; eexists; reflexivity. }
  repeat apply conj; try assumption; try tauto.
  unfold outcome, get_user. cbn [fst]. rewrite Hrow. reflexivity.
Qed.

(** The 200 that "alice" gets in the demo environment for the frames
    (3, 4) and (4, 3) came from the row of that username. *)
Lemma verify_grants_only_when_witness :
  ∃ row,
    outcome (get_user "alice")
      (exec (App.enroll (H := demo_env) (Some "10.0.0.7") "alice" [Byte.x03; Byte.x04])
         init_db)
    = Return (Some row) ∧ Db.role row = "user".
Proof.
  edestruct (verify_grants_only_when (H := demo_env) (Some "10.0.0.7") "alice"
               [Byte.x03; Byte.x04] [Byte.x04; Byte.x03]
               (exec (App.enroll (H := demo_env) (Some "10.0.0.7") "alice"
                        [Byte.x03; Byte.x04]) init_db))
    as (row & r1 & r2 & d1 & d2 & motion & _ & Hrow & _ & _ & _ & _ & _ & _ & _ & _ & _
        & Hrole).
  - vm_compute. reflexivity.
  - exists row. split; [exact Hrow|]. rewrite <- Hrole. reflexivity.
Defined.

(** X22: the token of a 200 of [/verify] opens [/me] as the verified user.
    When the username is not empty, the token, presented with a scheme that
    lower-cases to "bearer" in any world whose clock has not passed the
    second [TTL] after the token was made, makes [/me] return the username
    of the request and the role of the answer. *)
Theorem verified_token_opens_me `{Env} client username image1 image2 w resp (s : string) w2 :
  outcome (App.verify client username image1 image2) w = Return resp →
  username ≠ "" →
  str_lower s = "bearer" →
  clock (ticks w2) ≤ clock (S (ticks w)) + ACCESS_TOKEN_TTL_SECONDS →
  outcome (App.me (Some {| Auth.scheme := s; Auth.credentials := App.vr_token resp |})) w2
  = Return {| Auth.cu_username := JStr username; Auth.cu_role := JStr (App.vr_role resp) |}.
Proof.
  intros Hret Hu Hs Hexp.
  destruct (verify_return_inv client username image1 image2 w resp Hret)
    as (row & r1 & r2 & d1 & d2 & motion & _ & _ & _ & _ & _ & _ & _ & _ & _ & _ & ->).
  cbn [App.vr_token App.vr_role]. unfold outcome, App.me.
  rewrite (get_current_user_issued s username (Db.role row) _ _ w2 Hs). cbn zeta. cbn [fst].
  apply Z.ltb_ge in Hexp. rewrite Hexp.
  rewrite (proj2 (String.eqb_neq username "")) by exact Hu. reflexivity.
Qed.

(** The token that "alice" gets in the demo environment opens [/me] as
    "alice" with the role "user". *)
Lemma verified_token_opens_me_witness :
  ∃ resp,
    outcome (App.verify (H := demo_env) (Some "10.0.0.7") "alice"
               [Byte.x03; Byte.x04] [Byte.x04; Byte.x03])
      (exec (App.enroll (H := demo_env) (Some "10.0.0.7") "alice" [Byte.x03; Byte.x04])
         init_db)
    = Return resp ∧
    outcome (App.me (H := demo_env) (bearer (App.vr_token resp))) (with_ticks 100 init_db)
    = Return {| Auth.cu_username := JStr "alice"; Auth.cu_role := JStr "user" |}.
Proof.
  eexists. split.
  - vm_compute. reflexivity.
  - refine (verified_token_opens_me (H := demo_env) (Some "10.0.0.7") "alice"
              [Byte.x03; Byte.x04] [Byte.x04; Byte.x03]
              (exec (App.enroll (H := demo_env) (Some "10.0.0.7") "alice"
                       [Byte.x03; Byte.x04]) init_db) _ "bearer" (with_ticks 100 init_db)
              _ _ _ _).
    + vm_compute. reflexivity.
    + discriminate.
    + reflexivity.
    + vm_compute. discriminate.
Defined.

(** ** Refusals of [/enroll] and [/search] *)

Section Refusals.
Context `{Env}.
Import App Recognition.


Lemma search_authenticated_run client image top_k creds w user w1 :
  Auth.get_current_user creds w = (Return user, w1) →
  search client image top_k creds w =
  match extract_embedding image with
  | Raise (ValueError e) =>
      (log_event "search_error" (Some (Auth.str_of (Auth.cu_username user)))
         (Some (_client_ip client)) [("error", JStr e)];;
       raise (HTTPException 400 (JStr e))) w1
  | Raise e => (Raise e, w1)
  | Return r =>
      if negb (quality_ok r)
      then (Raise (HTTPException 400
                     (JDict [("error", JStr "quality_gate");
                             ("detail", JOpt JStr (quality_reason r))])), w1)
      else if negb (face_count r =? 1)
      then (Raise (HTTPException 400
                     (JDict [("error", JStr "invalid_face_count");
                             ("face_count", JInt (face_count r))])), w1)
      else
        (rows ← list_users;
         candidates ← call (candidates_of (embedding r) rows []);
         let candidates := list_sort distance candidates in
         let results := take (Z.to_nat (Z.max 1 (Z.min top_k 25))) candidates in
         log_event "search_success"
           (Some (Auth.str_of (Auth.cu_username user))) (Some (_client_ip client))
           [("top_k", JInt top_k); ("returned", JInt (Z.of_nat (length results)))];;
         mret {| sr_results := results; sr_match_threshold := MATCH_THRESHOLD |}) w1
  end.
Proof.
  intros Hauth. unfold search. erewrite bind_return by exact Hauth. cbn zeta.
  destruct (extract_embedding image) as [r|[| | | |]]; try reflexivity.
  destruct (negb (quality_ok r)); [reflexivity|].
  destruct (negb (face_count r =? 1)); reflexivity.
Qed.

End Refusals.



(** X24: [/search] needs a current user and keeps no record of an image
    it turns down. Without one, it raises what [get_current_user] raises
    and appends no event. With one, an image that fails the quality gate or
    does not show exactly one face is answered 400 with no event, unlike
    in [/enroll] and [/verify]; an image that is not empty and does not
    decode is answered 400 with one [search_error] event under the name in
    the token; and the empty image ends in the [cv2.error] of OpenCV, which
    the handler does not catch, with no event. *)
Theorem search_refusals `{Env} client image top_k creds w :
  let w' := exec (App.search client image top_k creds) w in
  (∀ e, outcome (Auth.get_current_user creds) w = Raise e →
        outcome (App.search client image top_k creds) w = Raise e ∧
        events w' = events w) ∧
  (∀ user r, outcome (Auth.get_current_user creds) w = Return user →
        Recognition.extract_embedding image = Return r →
        Recognition.quality_ok r = false ∨ Recognition.face_count r ≠ 1 →
        (∃ detail, outcome (App.search client image top_k creds) w
                   = Raise (HTTPException 400 detail)) ∧
        events w' = events w) ∧
  (∀ user, outcome (Auth.get_current_user creds) w = Return user →
        image ≠ [] → imdecode_color image = None →
        outcome (App.search client image top_k creds) w
          = Raise (HTTPException 400 (JStr "Invalid image bytes (decode failed).")) ∧
        ∃ ev, events w' = (events w ++ [ev])%list ∧
              event_type ev = "search_error" ∧
              ev_username ev = Some (Auth.str_of (Auth.cu_username user))) ∧
  (∀ user, outcome (Auth.get_current_user creds) w = Return user →
        image = [] →
        outcome (App.search client image top_k creds) w = Raise Cv2Error ∧
        events w' = events w).
Proof.
  cbn zeta.
  pose proof (keeps_get_current_user events ltac:(reflexivity) creds w) as He.
  unfold outcome, exec in *.
  destruct (Auth.get_current_user creds w) as [[user|e0] w1] eqn:Hauth; cbn [fst snd] in He.
  - rewrite (search_authenticated_run client image top_k creds w user w1 Hauth).
    repeat apply conj.
    + intros e [=].
    + intros user' r _ Hx Hbad. rewrite Hx.
      destruct (Recognition.quality_ok r) eqn:Hq; cbn [negb].
      * destruct Hbad as [[=]|Hf]. apply Z.eqb_neq in Hf. rewrite Hf. cbn [negb fst snd].
        split; [eexists; reflexivity|exact He].
      * cbn [fst snd]. split; [eexists; reflexivity|exact He].
    + intros user' [= <-] Hne Hdec.
      rewrite (extract_embedding_decode_failed image)
        by (rewrite cv2_imdecode_nonempty, Hdec by exact Hne; reflexivity).
      erewrite bind_return by apply log_event_run.
      unfold raise. cbn [fst snd events with_events with_ticks].
      split; [reflexivity|]. eexists. rewrite He. split; [reflexivity|]. split; reflexivity.
    + intros user' _ ->. split; [reflexivity|exact He].
  - unfold App.search. erewrite bind_raise by exact Hauth. cbn [fst snd].
    repeat apply conj.
    + intros e [= <-]. split; [reflexivity|exact He].
    + intros user r [=].
    + intros user [=].
    + intros user [=].
Qed.

(** The demo token of "root" and a blurred image: 400, and an empty log. *)
Lemma search_refusals_witness :
  events (exec (App.search (H := blurry_env) (Some "10.0.0.7") [Byte.x03; Byte.x04] 5
                  (bearer (demo_token_of "user")))
            init_db) = [].
Proof.
  edestruct (search_refusals (H := blurry_env) (Some "10.0.0.7") [Byte.x03; Byte.x04] 5
               (bearer (demo_token_of "user")) init_db) as (_ & Hgate & _ & _).
  edestruct Hgate as (_ & Hevents).
  - vm_compute. reflexivity.
  - vm_compute. reflexivity.
  - left. reflexivity.
  - exact Hevents.
Defined.
